(** * The bouncing DVD logo: Update, handleKeyPresses and the game loop

    A shallow embedding of [src/dvdlogo.go].

    Numbers.  The Go program keeps position, velocity and logo height in
    [float64].  They are modelled here as exact rationals ([Q]): every
    arithmetic operation of the source is kept, in the source's order, and
    only IEEE rounding, infinities and NaN are left out.  Equalities between
    such numbers are therefore stated with [==] ([Qeq]).  The corner counter
    is a Go [int]; it is modelled as a [Z] with the 64-bit two's complement
    wrap-around of [++] written out.

    State.  [Update] and [handleKeyPresses] mutate the receiver [*Game]; here
    they take the game and return the new one.  The two fields [startTime] and
    [logoImage] are read by [Draw] only and are not part of the model.  The
    polled devices ([ebiten.IsKeyPressed], [ebiten.IsMouseButtonPressed],
    [ebiten.CursorPosition]) are the per-tick [Input]. *)

From Stdlib Require Import ZArith QArith Qabs Qround Lqa Lia List Bool.
From stdpp Require Import base decidable countable gmap strings pretty.

Local Open Scope Q_scope.

(** ** Constants (dvdlogo.go, lines 22-30) *)

(** The three sizes are untyped integer constants in Go: [main] uses them as
    [int], [Update] as [float64]. *)
Definition screenWidthInt : Z := 800.
Definition screenHeightInt : Z := 600.
Definition logoWidthInt : Z := 120.
Definition screenWidth : Q := inject_Z screenWidthInt.
Definition screenHeight : Q := inject_Z screenHeightInt.
Definition logoWidth : Q := inject_Z logoWidthInt.
Definition logoStartVelocity : Q := 2.
Definition logoMaxVelocity : Q := 3.
Definition cornerTolerance : Q := 5.
Definition nudgeAmount : Q := 1 # 2.

(** ** Numeric helpers *)

(** [a < b] on float64 values, as a boolean test. *)
Definition Qltb (a b : Q) : bool := negb (Qle_bool b a).

(** [math.Abs]. *)
Definition Abs (x : Q) : Q := Qabs x.

(** [math.Copysign(m, s)]: the magnitude of [m] with the sign of [s]. *)
Definition Copysign (m s : Q) : Q :=
  if Qltb s 0 then - Qabs m else Qabs m.

(** Go's [int(f)] for a float64 [f]: truncation toward zero. *)
Definition int_of_float64 (f : Q) : Z := Z.quot (Qnum f) (Zpos (Qden f)).

(** Go's [int] is 64 bits wide; arithmetic wraps around silently. *)
Definition maxInt : Z := 2 ^ 63 - 1.
Definition minInt : Z := - 2 ^ 63.
Definition wrapInt (z : Z) : Z := ((z + 2 ^ 63) mod 2 ^ 64 - 2 ^ 63)%Z.
Definition isInt (z : Z) : Prop := (minInt <= z <= maxInt)%Z.

(** ** Keys and the key-state map *)

Inductive Key : Set := KeyEscape | KeyC | KeyQ.

#[global] Instance Key_eq_dec : EqDecision Key.
Proof. solve_decision. Defined.

Definition Key_to_pos (k : Key) : positive :=
  match k with KeyEscape => 1 | KeyC => 2 | KeyQ => 3 end%positive.

Definition Key_of_pos (p : positive) : option Key :=
  match p with
  | 1 => Some KeyEscape | 2 => Some KeyC | 3 => Some KeyQ | _ => None
  end%positive.

#[global] Instance Key_countable : Countable Key.
Proof.
  refine {| encode := Key_to_pos; decode := Key_of_pos |}.
  intros []; reflexivity.
Defined.

(** Reading a Go [map[ebiten.Key]bool]: a missing key reads [false]. *)
Definition keyGet (m : gmap Key bool) (k : Key) : bool :=
  default false (m !! k).

(** ** The game state (dvdlogo.go, lines 32-45) *)

Record Game : Type := mkGame {
  logoX : Q;
  logoY : Q;
  velocityX : Q;
  velocityY : Q;
  cornerHits : Z;
  logoHeight : Q;
  hitCorner : bool;
  paused : bool;
  terminated : bool;
  keyState : gmap Key bool
}.

Definition set_logoX (v : Q) (g : Game) : Game :=
  mkGame v (logoY g) (velocityX g) (velocityY g) (cornerHits g)
         (logoHeight g) (hitCorner g) (paused g) (terminated g) (keyState g).
Definition set_logoY (v : Q) (g : Game) : Game :=
  mkGame (logoX g) v (velocityX g) (velocityY g) (cornerHits g)
         (logoHeight g) (hitCorner g) (paused g) (terminated g) (keyState g).
Definition set_velocityX (v : Q) (g : Game) : Game :=
  mkGame (logoX g) (logoY g) v (velocityY g) (cornerHits g)
         (logoHeight g) (hitCorner g) (paused g) (terminated g) (keyState g).
Definition set_velocityY (v : Q) (g : Game) : Game :=
  mkGame (logoX g) (logoY g) (velocityX g) v (cornerHits g)
         (logoHeight g) (hitCorner g) (paused g) (terminated g) (keyState g).
Definition set_cornerHits (v : Z) (g : Game) : Game :=
  mkGame (logoX g) (logoY g) (velocityX g) (velocityY g) v
         (logoHeight g) (hitCorner g) (paused g) (terminated g) (keyState g).
Definition set_hitCorner (v : bool) (g : Game) : Game :=
  mkGame (logoX g) (logoY g) (velocityX g) (velocityY g) (cornerHits g)
         (logoHeight g) v (paused g) (terminated g) (keyState g).
Definition set_paused (v : bool) (g : Game) : Game :=
  mkGame (logoX g) (logoY g) (velocityX g) (velocityY g) (cornerHits g)
         (logoHeight g) (hitCorner g) v (terminated g) (keyState g).
Definition set_terminated (v : bool) (g : Game) : Game :=
  mkGame (logoX g) (logoY g) (velocityX g) (velocityY g) (cornerHits g)
         (logoHeight g) (hitCorner g) (paused g) v (keyState g).
Definition set_key (k : Key) (v : bool) (g : Game) : Game :=
  mkGame (logoX g) (logoY g) (velocityX g) (velocityY g) (cornerHits g)
         (logoHeight g) (hitCorner g) (paused g) (terminated g)
         (<[k := v]> (keyState g)).

(** ** What one tick polls from the devices *)

Record Input : Type := mkInput {
  escDown : bool;       (* ebiten.IsKeyPressed(ebiten.KeyEscape) *)
  cDown : bool;         (* ebiten.IsKeyPressed(ebiten.KeyC) *)
  qDown : bool;         (* ebiten.IsKeyPressed(ebiten.KeyQ) *)
  mouseLeft : bool;     (* ebiten.IsMouseButtonPressed(ebiten.MouseButtonLeft) *)
  cursorX : Z;          (* ebiten.CursorPosition() *)
  cursorY : Z
}.

Definition IsKeyPressed (i : Input) (k : Key) : bool :=
  match k with
  | KeyEscape => escDown i
  | KeyC => cDown i
  | KeyQ => qDown i
  end.

(** A tick on which nothing is pressed. *)
Definition idle : Input := mkInput false false false false 0 0.

(** ** handleKeyPresses (dvdlogo.go, lines 108-138) *)

Definition handleKeyPresses (i : Input) (g : Game) : Game :=
  let g :=
    if IsKeyPressed i KeyEscape then
      let g :=
        if negb (keyGet (keyState g) KeyEscape)
        then set_paused (negb (paused g)) g
        else g in
      set_key KeyEscape true g
    else set_key KeyEscape false g in
  if paused g then
    let g :=
      if IsKeyPressed i KeyC then
        let g :=
          if negb (keyGet (keyState g) KeyC)
          then set_paused false g
          else g in
        set_key KeyC true g
      else set_key KeyC false g in
    if IsKeyPressed i KeyQ
    then set_key KeyQ true (set_terminated true g)
    else set_key KeyQ false g
  else g.

(** ** Update (dvdlogo.go, lines 47-106), by its blocks *)

(** Lines 58-60: the Euler step and the reset of the flash flag. *)
Definition moveLogo (g : Game) : Game :=
  let g := set_logoX (logoX g + velocityX g) g in
  let g := set_logoY (logoY g + velocityY g) g in
  set_hitCorner false g.

(** Lines 63-78: collision with the four window borders, in the order
    left, right, top, bottom. *)
Definition collideBorders (g : Game) : Game :=
  let g :=
    if Qltb (logoX g) 0
    then set_velocityX (- velocityX g) (set_logoX 0 g) else g in
  let g :=
    if Qltb screenWidth (logoX g + logoWidth)
    then set_velocityX (- velocityX g) (set_logoX (screenWidth - logoWidth) g)
    else g in
  let g :=
    if Qltb (logoY g) 0
    then set_velocityY (- velocityY g) (set_logoY 0 g) else g in
  if Qltb screenHeight (logoY g + logoHeight g)
  then set_velocityY (- velocityY g) (set_logoY (screenHeight - logoHeight g) g)
  else g.

(** The two conditions of lines 81-82. *)
Definition nearVerticalEdge (g : Game) : bool :=
  Qltb (logoX g) cornerTolerance
  || Qltb (screenWidth - logoWidth - cornerTolerance) (logoX g).
Definition nearHorizontalEdge (g : Game) : bool :=
  Qltb (logoY g) cornerTolerance
  || Qltb (screenHeight - logoHeight g - cornerTolerance) (logoY g).

(** Lines 81-86: the corner check. *)
Definition checkCorner (g : Game) : Game :=
  if nearVerticalEdge g then
    if nearHorizontalEdge g
    then set_hitCorner true (set_cornerHits (wrapInt (cornerHits g + 1)) g)
    else g
  else g.

(** Lines 97-102: the clamp of one velocity component. *)
Definition clampVelocity (v : Q) : Q :=
  if Qltb logoMaxVelocity (Abs v) then Copysign logoMaxVelocity v else v.

(** Lines 89-103: the mouse nudge. *)
Definition adjustVelocity (i : Input) (g : Game) : Game :=
  if mouseLeft i then
    let dx := inject_Z (cursorX i) - (logoX g + logoWidth / 2) in
    let dy := inject_Z (cursorY i) - (logoY g + logoHeight g / 2) in
    let g := set_velocityX (velocityX g + dx * nudgeAmount / 1000) g in
    let g := set_velocityY (velocityY g + dy * nudgeAmount / 1000) g in
    let g := set_velocityX (clampVelocity (velocityX g)) g in
    set_velocityY (clampVelocity (velocityY g)) g
  else g.

(** The value [Update] returns: [nil] is [None]. *)
Inductive error : Set := Termination.

Definition Update (i : Input) (g : Game) : Game * option error :=
  let g := handleKeyPresses i g in
  if paused g then
    if terminated g then (g, Some Termination) else (g, None)
  else
    (adjustVelocity i (checkCorner (collideBorders (moveLogo g))), None).

(** ** main (dvdlogo.go, lines 201-227) *)

(** [rand.Intn(n)] panics unless [0 < n] and otherwise returns some [r] with
    [0 <= r < n]. *)
Definition IntnReturns (n r : Z) : Prop := (0 < n /\ 0 <= r < n)%Z.

(** The game [main] builds (lines 210-222) for a decoded image of
    [imgDx] by [imgDy] pixels, when the two calls of [rand.Intn] return [rx]
    and [ry]. *)
Definition scaledHeight (imgDx imgDy : Z) : Q :=
  let scale := logoWidth / inject_Z imgDx in
  scale * inject_Z imgDy.

Definition newGame (imgDx imgDy rx ry : Z) : Game :=
  mkGame (inject_Z rx) (inject_Z ry) logoStartVelocity logoStartVelocity 0
         (scaledHeight imgDx imgDy) false false false ∅.

(** The states [main] can hand to [ebiten.RunGame].  A decoded image has a
    positive width and height. *)
Inductive initial : Game -> Prop :=
| initial_main (imgDx imgDy rx ry : Z) :
    (0 < imgDx)%Z -> (0 < imgDy)%Z ->
    IntnReturns (screenWidthInt - logoWidthInt) rx ->
    IntnReturns
      (screenHeightInt - int_of_float64 (scaledHeight imgDx imgDy)) ry ->
    initial (newGame imgDx imgDy rx ry).

(** ** The game loop

    [ebiten.RunGame] calls [Update] once per tick and stops at the first tick
    on which [Update] returns an error; [ebiten.Termination] ends the program
    normally.  The boolean tells whether the loop has stopped. *)
Fixpoint RunGame (inputs : list Input) (g : Game) : Game * bool :=
  match inputs with
  | nil => (g, false)
  | i :: rest =>
      match Update i g with
      | (g', Some Termination) => (g', true)
      | (g', None) => RunGame rest g'
      end
  end.

(** The states the loop can be in at a tick boundary. *)
Inductive reachable : Game -> Prop :=
| reach_initial g : initial g -> reachable g
| reach_tick g i g' :
    reachable g -> Update i g = (g', None) -> reachable g'.

(** The state after a sequence of ticks, whatever [Update] returned. *)
Definition ticks (inputs : list Input) (g : Game) : Game :=
  fold_left (fun g i => fst (Update i g)) inputs g.

(** ** The session, as the specification names it *)

Inductive Session : Set := Running | Paused | Terminated.

Definition session (g : Game) : Session :=
  if terminated g then Terminated
  else if paused g then Paused else Running.

(** ** Predicates of the claims *)

Definition inBounds (g : Game) : Prop :=
  (0 <= logoX g /\ logoX g <= screenWidth - logoWidth) /\
  (0 <= logoY g /\ logoY g <= screenHeight - logoHeight g).


Definition velocityBounded (g : Game) : Prop :=
  Qabs (velocityX g) <= logoMaxVelocity /\
  Qabs (velocityY g) <= logoMaxVelocity.

(** Same place and same speed, as numbers. *)
Definition sameMotion (g g' : Game) : Prop :=
  logoX g' == logoX g /\ logoY g' == logoY g /\
  velocityX g' == velocityX g /\ velocityY g' == velocityY g.

(** ** Inputs and runs the claims speak of *)

(** Escape is the one tracked key that is down. *)
Definition onlyEscapeDown (i : Input) : Prop :=
  escDown i = true /\ cDown i = false /\ qDown i = false.


(** Every tick of the run ends with the game paused. *)
Fixpoint staysPaused (inputs : list Input) (g : Game) : Prop :=
  match inputs with
  | nil => True
  | i :: rest =>
      paused (fst (Update i g)) = true /\ staysPaused rest (fst (Update i g))
  end.

(** A 240 by 112 pixel image gives a logo 56 high. *)
Definition startGame : Game := newGame 240 112 100 100.
Definition cornerStart : Game := newGame 240 112 0 0.

Definition pressEscape : Input := mkInput true false false false 0 0.
Definition pressC : Input := mkInput false true false false 0 0.
Definition pressCandQ : Input := mkInput false true true false 0 0.

(** The left button held with the cursor far up and to the left. *)
Definition dragFarAway : Input :=
  mkInput false false false true (-3938) (-3970).

(** The logo lies still at (2,2), the game runs, the counter reads [c]. *)
Definition restingInCorner (c : Z) (g : Game) : Prop :=
  logoX g == 2 /\ logoY g == 2 /\ velocityX g == 0 /\ velocityY g == 0 /\
  logoHeight g == 56 /\ paused g = false /\ cornerHits g = c.

(** The game after the drag of [dragFarAway] and [n] idle ticks. *)
Definition lingering (n : nat) : Game :=
  ticks (dragFarAway :: repeat idle n) cornerStart.

(** The state in which the counter has reached the largest [int]. *)
Definition counterFull : Game := lingering (Z.to_nat (maxInt - 1)).

(** A pause, then C and Q pressed on the same tick. *)
Definition afterPause : Game := fst (Update pressEscape startGame).
Definition afterCandQ : Game := fst (Update pressCandQ afterPause).


(** The tick on which [Update] is called with input [i] in state [g] is a
    running one: the game is not paused once the keys have been handled, so
    lines 58-103 are executed. *)
Definition runningTick (i : Input) (g : Game) : Prop :=
  paused (handleKeyPresses i g) = false.

(** Sample states: at the left wall moving left, at rest inside the window,
    in the top left corner, and in the middle of the window. *)
Definition atLeftWall : Game :=
  mkGame 0 100 (-2) 2 0 56 false false false ∅.
Definition atOrigin : Game :=
  mkGame 0 0 2 2 0 56 false false false ∅.
Definition atCentre : Game :=
  mkGame 400 300 2 2 0 56 false false false ∅.

(** ** Layout (dvdlogo.go, lines 140-142) *)

Definition Layout (outsideWidth outsideHeight : Z) : Z * Z :=
  (screenWidthInt, screenHeightInt).

(** ** The clock: [time.Duration]

    A duration is an [int64] count of nanoseconds.  [Hours], [Minutes] and
    [Seconds] return a float64, computed by the Go library as the integral
    part plus the fraction; [Milliseconds] returns an integer. *)

Definition Second : Z := 1000000000.
Definition Minute : Z := 60 * Second.
Definition Hour : Z := 60 * Minute.

Definition Hours (d : Z) : Q :=
  inject_Z (Z.quot d Hour) + inject_Z (Z.rem d Hour) / inject_Z Hour.
Definition Minutes (d : Z) : Q :=
  inject_Z (Z.quot d Minute) + inject_Z (Z.rem d Minute) / inject_Z Minute.
Definition Seconds (d : Z) : Q :=
  inject_Z (Z.quot d Second) + inject_Z (Z.rem d Second) / inject_Z Second.
Definition Milliseconds (d : Z) : Z := Z.quot d 1000000.

(** ** updateWindowTitle (dvdlogo.go, lines 167-175)

    [elapsed] is what [time.Since(g.startTime)] returns. *)

(** The four numbers of lines 169-172. *)
Definition titleHours (elapsed : Z) : Z := int_of_float64 (Hours elapsed).
Definition titleMinutes (elapsed : Z) : Z :=
  Z.rem (int_of_float64 (Minutes elapsed)) 60.
Definition titleSeconds (elapsed : Z) : Z :=
  Z.rem (int_of_float64 (Seconds elapsed)) 60.
Definition titleMilliseconds (elapsed : Z) : Z :=
  Z.rem (Milliseconds elapsed) 1000.

(** [fmt.Sprintf("%d", z)] and [fmt.Sprintf("%02d", z)]: decimal digits, a
    minus sign for a negative number, and for [%02d] a leading zero when
    that gives fewer than two characters. *)
Definition fmt_d (z : Z) : string := pretty z.
Definition fmt_02d (z : Z) : string :=
  if (0 <=? z)%Z && (z <? 10)%Z then "0" +:+ pretty z else pretty z.

(** The part of the title after ["Time: "]. *)
Definition titleTime (elapsed : Z) : string :=
  fmt_02d (titleHours elapsed) +:+ ":" +:+
  fmt_02d (titleMinutes elapsed) +:+ ":" +:+
  fmt_02d (titleSeconds elapsed) +:+ "." +:+
  fmt_02d (Z.quot (titleMilliseconds elapsed) 10).

(** The string handed to [ebiten.SetWindowTitle]. *)
Definition updateWindowTitle (elapsed : Z) (g : Game) : string :=
  "Hits: " +:+ fmt_d (cornerHits g) +:+ " | Time: " +:+ titleTime elapsed.

(** ** Drawing

    [Draw] and [drawPauseMenu] only call the drawing library; they are
    modelled by the list of calls they make, in order. *)

Inductive Color : Set :=
| RGBA (r g b a : Z)      (* color.RGBA{r, g, b, a} *)
| White.                  (* color.White *)

(** [ebiten.GeoM], the affine map (x,y) |-> (a x + b y + tx, c x + d y + ty),
    with the two operations [Draw] uses. *)
Record GeoM : Type := mkGeoM {
  geoA : Q; geoB : Q; geoC : Q; geoD : Q; geoTx : Q; geoTy : Q
}.

Definition GeoM_identity : GeoM := mkGeoM 1 0 0 1 0 0.

Definition GeoM_Scale (x y : Q) (m : GeoM) : GeoM :=
  mkGeoM (geoA m * x) (geoB m * x) (geoC m * y) (geoD m * y)
         (geoTx m * x) (geoTy m * y).

Definition GeoM_Translate (tx ty : Q) (m : GeoM) : GeoM :=
  mkGeoM (geoA m) (geoB m) (geoC m) (geoD m) (geoTx m + tx) (geoTy m + ty).


Inductive DrawCall : Type :=
| Fill (c : Color)                          (* screen.Fill *)
| DrawImage (m : GeoM)                      (* screen.DrawImage(logoImage, op) *)
| SetWindowTitle (title : string)           (* ebiten.SetWindowTitle *)
| DrawRect (x y w h : Q) (c : Color)        (* ebitenutil.DrawRect *)
| TextDraw (s : string) (x y : Z) (c : Color).   (* text.Draw, Face7x13 *)

(** Go's [len] of a string of ASCII characters. *)
Definition len (s : string) : Z := Z.of_nat (String.length s).

(** drawPauseMenu (dvdlogo.go, lines 177-199). *)
Definition drawPauseMenu : list DrawCall :=
  let pauseMenuWidth := 300%Z in
  let pauseMenuHeight := 200%Z in
  let pauseMenuX := Z.quot (screenWidthInt - pauseMenuWidth) 2 in
  let pauseMenuY := Z.quot (screenHeightInt - pauseMenuHeight) 2 in
  let borderThickness : Q := 2 in
  let pauseText := "PAUSED"%string in
  let continueText := "[C]ontinue"%string in
  let quitText := "[Q]uit"%string in
  DrawRect (inject_Z pauseMenuX) (inject_Z pauseMenuY)
           (inject_Z pauseMenuWidth) (inject_Z pauseMenuHeight)
           (RGBA 0 0 128 255)
  :: DrawRect (inject_Z pauseMenuX) (inject_Z pauseMenuY)
              (inject_Z pauseMenuWidth) borderThickness White
  :: DrawRect (inject_Z pauseMenuX) (inject_Z pauseMenuY)
              borderThickness (inject_Z pauseMenuHeight) White
  :: DrawRect (inject_Z pauseMenuX)
              (inject_Z (pauseMenuY + pauseMenuHeight) - borderThickness)
              (inject_Z pauseMenuWidth) borderThickness White
  :: DrawRect (inject_Z (pauseMenuX + pauseMenuWidth) - borderThickness)
              (inject_Z pauseMenuY)
              borderThickness (inject_Z pauseMenuHeight) White
  :: TextDraw pauseText
       (pauseMenuX + Z.quot pauseMenuWidth 2 - Z.quot (len pauseText * 7) 2)
       (pauseMenuY + 50) White
  :: TextDraw continueText
       (pauseMenuX + Z.quot pauseMenuWidth 2
        - Z.quot (len continueText * 7) 2)
       (pauseMenuY + 100) White
  :: TextDraw quitText
       (pauseMenuX + Z.quot pauseMenuWidth 2 - Z.quot (len quitText * 7) 2)
       (pauseMenuY + 150) White
  :: nil.

(** Draw (dvdlogo.go, lines 144-165).  [imgDx] is
    [g.logoImage.Bounds().Dx()], [elapsed] the clock reading taken by
    [updateWindowTitle]. *)
Definition Draw (imgDx : Z) (elapsed : Z) (g : Game) : list DrawCall :=
  let background :=
    if hitCorner g then Fill (RGBA 0 255 0 255) else Fill (RGBA 0 0 255 255) in
  let scale := logoWidth / inject_Z imgDx in
  let geoM :=
    GeoM_Translate (logoX g) (logoY g) (GeoM_Scale scale scale GeoM_identity) in
  background :: DrawImage geoM
  :: SetWindowTitle (updateWindowTitle elapsed g)
  :: (if paused g then drawPauseMenu else nil).



(** The colour of the first [Fill] of a frame. *)
Definition backgroundOf (calls : list DrawCall) : option Color :=
  match calls with
  | Fill c :: _ => Some c
  | _ => None
  end.

(** * Proofs *)

(** ** Comparisons, absolute values and the wrap-around *)

Lemma Qltb_lt (a b : Q) : Qltb a b = true <-> a < b.
Proof.
  unfold Qltb. rewrite negb_true_iff, <- not_true_iff_false, Qle_bool_iff.
  split; [apply Qnot_le_lt | apply Qlt_not_le].
Qed.

Lemma Qltb_ge (a b : Q) : Qltb a b = false <-> b <= a.
Proof.
  unfold Qltb. rewrite negb_false_iff. apply Qle_bool_iff.
Qed.

(** Case analysis on the first comparison left in the goal. *)
Ltac split_Qltb :=
  match goal with
  | |- context [Qltb ?a ?b] =>
      let E := fresh "E" in
      destruct (Qltb a b) eqn:E;
      [apply Qltb_lt in E | apply Qltb_ge in E]
  end.

Ltac game_fields :=
  cbn [logoX logoY velocityX velocityY cornerHits logoHeight hitCorner paused
       terminated keyState set_logoX set_logoY set_velocityX set_velocityY
       set_cornerHits set_hitCorner set_paused set_terminated set_key
       escDown cDown qDown mouseLeft cursorX cursorY negb andb orb
       fst snd] in *.

Ltac constants :=
  unfold screenWidth, screenHeight, logoWidth, logoStartVelocity,
    logoMaxVelocity, cornerTolerance, nudgeAmount, screenWidthInt,
    screenHeightInt, logoWidthInt, inject_Z in *.

Lemma wrapInt_small (z : Z) : (minInt <= z <= maxInt)%Z -> wrapInt z = z.
Proof.
  unfold wrapInt, minInt, maxInt. intros H.
  rewrite Z.mod_small; lia.
Qed.

Lemma wrapInt_succ_maxInt : wrapInt (maxInt + 1) = minInt.
Proof. reflexivity. Qed.
(** ** What each block of [Update] leaves alone *)

Lemma handleKeyPresses_motion (i : Input) (g : Game) :
  let g' := handleKeyPresses i g in
  logoX g' = logoX g /\ logoY g' = logoY g /\
  velocityX g' = velocityX g /\ velocityY g' = velocityY g /\
  cornerHits g' = cornerHits g /\ logoHeight g' = logoHeight g /\
  hitCorner g' = hitCorner g.
Proof.
  destruct g as [x y vx vy c h hc p t ks], i as [e kc kq m cx cy].
  unfold handleKeyPresses, IsKeyPressed. game_fields.
  destruct e, (keyGet ks KeyEscape), p, kc, kq; game_fields;
    try destruct (keyGet _ KeyC); game_fields; repeat split; reflexivity.
Qed.

Lemma Update_when_paused (i : Input) (g : Game) :
  paused (handleKeyPresses i g) = true ->
  Update i g =
    (handleKeyPresses i g,
     if terminated (handleKeyPresses i g) then Some Termination else None).
Proof.
  intros H. unfold Update. rewrite H.
  destruct (terminated _); reflexivity.
Qed.

Lemma Update_when_running (i : Input) (g : Game) :
  paused (handleKeyPresses i g) = false ->
  Update i g =
    (adjustVelocity i
       (checkCorner (collideBorders (moveLogo (handleKeyPresses i g)))),
     None).
Proof. intros H. unfold Update. rewrite H. reflexivity. Qed.


Lemma collideBorders_frame (g : Game) :
  let g' := collideBorders g in
  cornerHits g' = cornerHits g /\ logoHeight g' = logoHeight g /\
  hitCorner g' = hitCorner g /\ paused g' = paused g /\
  terminated g' = terminated g /\ keyState g' = keyState g.
Proof.
  destruct g as [x y vx vy c h hc p t ks]. unfold collideBorders.
  game_fields.
  repeat (split_Qltb; game_fields); repeat split; reflexivity.
Qed.

Lemma checkCorner_frame (g : Game) :
  let g' := checkCorner g in
  logoX g' = logoX g /\ logoY g' = logoY g /\
  velocityX g' = velocityX g /\ velocityY g' = velocityY g /\
  logoHeight g' = logoHeight g /\ paused g' = paused g /\
  terminated g' = terminated g /\ keyState g' = keyState g.
Proof.
  unfold checkCorner.
  destruct (nearVerticalEdge g), (nearHorizontalEdge g); game_fields;
    repeat split; reflexivity.
Qed.

Lemma adjustVelocity_frame (i : Input) (g : Game) :
  let g' := adjustVelocity i g in
  logoX g' = logoX g /\ logoY g' = logoY g /\
  cornerHits g' = cornerHits g /\ logoHeight g' = logoHeight g /\
  hitCorner g' = hitCorner g /\ paused g' = paused g /\
  terminated g' = terminated g /\ keyState g' = keyState g.
Proof.
  unfold adjustVelocity. destruct (mouseLeft i); game_fields;
    repeat split; reflexivity.
Qed.

Lemma adjustVelocity_no_button (i : Input) (g : Game) :
  mouseLeft i = false -> adjustVelocity i g = g.
Proof. intros H. unfold adjustVelocity. rewrite H. reflexivity. Qed.

Lemma clampVelocity_bounded (v : Q) : Qabs (clampVelocity v) <= logoMaxVelocity.
Proof.
  unfold clampVelocity, Abs, Copysign. constants.
  split_Qltb; [|assumption].
  split_Qltb; apply Qle_bool_iff; reflexivity.
Qed.

(** ** The start state *)


Lemma int_of_float64_floor (f : Q) : 0 <= f -> int_of_float64 f = Qfloor f.
Proof.
  destruct f as [n d]. unfold Qle, int_of_float64, Qfloor. cbn.
  intros H. apply Z.quot_div_nonneg; lia.
Qed.


(** ** One tick, seen from outside *)

Lemma moveLogo_frame (g : Game) :
  let g' := moveLogo g in
  velocityX g' = velocityX g /\ velocityY g' = velocityY g /\
  cornerHits g' = cornerHits g /\ logoHeight g' = logoHeight g /\
  paused g' = paused g /\ terminated g' = terminated g /\
  keyState g' = keyState g.
Proof. unfold moveLogo. game_fields. repeat split; reflexivity. Qed.

(** Where the logo is after a tick on which the game is not paused: where the
    collision block left it. *)
Lemma Update_running_position (i : Input) (g : Game) :
  paused (handleKeyPresses i g) = false ->
  let g' := fst (Update i g) in
  let c := collideBorders (moveLogo (handleKeyPresses i g)) in
  logoX g' = logoX c /\ logoY g' = logoY c /\ logoHeight g' = logoHeight g.
Proof.
  intros Hp. rewrite (Update_when_running i g Hp). cbn [fst].
  destruct (adjustVelocity_frame i
    (checkCorner (collideBorders (moveLogo (handleKeyPresses i g)))))
    as (-> & -> & _ & -> & _).
  destruct (checkCorner_frame
    (collideBorders (moveLogo (handleKeyPresses i g))))
    as (-> & -> & _ & _ & -> & _).
  destruct (collideBorders_frame (moveLogo (handleKeyPresses i g)))
    as (_ & -> & _).
  destruct (moveLogo_frame (handleKeyPresses i g)) as (_ & _ & _ & -> & _).
  destruct (handleKeyPresses_motion i g) as (_ & _ & _ & _ & _ & -> & _).
  repeat split; reflexivity.
Qed.

Lemma Update_paused_state (i : Input) (g : Game) :
  paused (handleKeyPresses i g) = true ->
  fst (Update i g) = handleKeyPresses i g.
Proof. intros Hp. rewrite (Update_when_paused i g Hp). reflexivity. Qed.


(** ** Speed *)

Lemma collideBorders_speed (g : Game) :
  Qabs (velocityX (collideBorders g)) == Qabs (velocityX g) /\
  Qabs (velocityY (collideBorders g)) == Qabs (velocityY g).
Proof.
  destruct g as [x y vx vy c h hc p t ks]. unfold collideBorders.
  game_fields.
  repeat (split_Qltb; game_fields);
    rewrite ?Qabs_opp, ?Qopp_involutive; split; reflexivity.
Qed.

Lemma adjustVelocity_bounded (i : Input) (g : Game) :
  mouseLeft i = true -> velocityBounded (adjustVelocity i g).
Proof.
  intros Hm. unfold adjustVelocity, velocityBounded. rewrite Hm. game_fields.
  split; apply clampVelocity_bounded.
Qed.

(** The velocity after a tick on which the game is not paused and the mouse
    button is up: the one the collision block left. *)
Lemma Update_running_velocity (i : Input) (g : Game) :
  paused (handleKeyPresses i g) = false -> mouseLeft i = false ->
  let g' := fst (Update i g) in
  let c := collideBorders (moveLogo (handleKeyPresses i g)) in
  velocityX g' = velocityX c /\ velocityY g' = velocityY c.
Proof.
  intros Hp Hm. rewrite (Update_when_running i g Hp). cbn [fst].
  rewrite (adjustVelocity_no_button i _ Hm).
  destruct (checkCorner_frame
    (collideBorders (moveLogo (handleKeyPresses i g))))
    as (_ & _ & -> & -> & _).
  split; reflexivity.
Qed.

Lemma Update_running_speed (i : Input) (g : Game) :
  paused (handleKeyPresses i g) = false -> mouseLeft i = false ->
  Qabs (velocityX (fst (Update i g))) == Qabs (velocityX g) /\
  Qabs (velocityY (fst (Update i g))) == Qabs (velocityY g).
Proof.
  intros Hp Hm.
  destruct (Update_running_velocity i g Hp Hm) as (-> & ->).
  destruct (collideBorders_speed (moveLogo (handleKeyPresses i g))) as (-> & ->).
  destruct (moveLogo_frame (handleKeyPresses i g)) as (-> & -> & _).
  destruct (handleKeyPresses_motion i g) as (_ & _ & -> & -> & _).
  split; reflexivity.
Qed.

Lemma Update_running_pressed_bounded (i : Input) (g : Game) :
  paused (handleKeyPresses i g) = false -> mouseLeft i = true ->
  velocityBounded (fst (Update i g)).
Proof.
  intros Hp Hm. rewrite (Update_when_running i g Hp). cbn [fst].
  apply adjustVelocity_bounded, Hm.
Qed.

Lemma Update_velocityBounded (i : Input) (g : Game) :
  velocityBounded g -> velocityBounded (fst (Update i g)).
Proof.
  intros [Hx Hy]. destruct (paused (handleKeyPresses i g)) eqn:Hp.
  - rewrite (Update_paused_state i g Hp).
    destruct (handleKeyPresses_motion i g) as (_ & _ & Hvx & Hvy & _).
    unfold velocityBounded. rewrite Hvx, Hvy. split; assumption.
  - destruct (mouseLeft i) eqn:Hm.
    + apply Update_running_pressed_bounded; assumption.
    + destruct (Update_running_speed i g Hp Hm) as [Ex Ey].
      unfold velocityBounded. rewrite Ex, Ey. split; assumption.
Qed.

Lemma initial_velocityBounded (g : Game) : initial g -> velocityBounded g.
Proof.
  intros [dx dy rx ry _ _ _ _]. unfold velocityBounded, newGame. game_fields.
  split; apply Qle_bool_iff; reflexivity.
Qed.

Lemma ticks_cons (inputs : list Input) (i : Input) (g : Game) :
  ticks (i :: inputs) g = ticks inputs (fst (Update i g)).
Proof. reflexivity. Qed.

(** ** The key-state map *)

Lemma keyGet_insert_eq (m : gmap Key bool) (k : Key) (b : bool) :
  keyGet (<[k := b]> m) k = b.
Proof. unfold keyGet. rewrite lookup_insert_eq. reflexivity. Qed.

Lemma keyGet_insert_ne (m : gmap Key bool) (k k' : Key) (b : bool) :
  k <> k' -> keyGet (<[k := b]> m) k' = keyGet m k'.
Proof. intros H. unfold keyGet. rewrite lookup_insert_ne; auto. Qed.

Ltac key_lookups :=
  repeat first
    [ rewrite keyGet_insert_eq
    | rewrite keyGet_insert_ne by discriminate ].



Lemma Update_flags (i : Input) (g : Game) :
  paused (fst (Update i g)) = paused (handleKeyPresses i g) /\
  terminated (fst (Update i g)) = terminated (handleKeyPresses i g) /\
  keyState (fst (Update i g)) = keyState (handleKeyPresses i g).
Proof.
  destruct (paused (handleKeyPresses i g)) eqn:Hp.
  - rewrite (Update_paused_state i g Hp). auto.
  - rewrite (Update_when_running i g Hp). cbn [fst].
    destruct (adjustVelocity_frame i
      (checkCorner (collideBorders (moveLogo (handleKeyPresses i g)))))
      as (_ & _ & _ & _ & _ & -> & -> & ->).
    destruct (checkCorner_frame
      (collideBorders (moveLogo (handleKeyPresses i g))))
      as (_ & _ & _ & _ & _ & -> & -> & ->).
    destruct (collideBorders_frame (moveLogo (handleKeyPresses i g)))
      as (_ & _ & _ & -> & -> & ->).
    destruct (moveLogo_frame (handleKeyPresses i g))
      as (_ & _ & _ & _ & -> & -> & ->).
    auto.
Qed.

(** [handleKeyPresses] as a function of the two flags, of what the map says
    about Escape and C, and of the keys. *)
Lemma handleKeyPresses_flags (i : Input) (g : Game) :
  let toggled := escDown i && negb (keyGet (keyState g) KeyEscape) in
  let p1 := if toggled then negb (paused g) else paused g in
  let continued := cDown i && negb (keyGet (keyState g) KeyC) in
  paused (handleKeyPresses i g) = p1 && negb continued /\
  terminated (handleKeyPresses i g) = terminated g || (p1 && qDown i).
Proof.
  destruct g as [x y vx vy c h hc p t ks], i as [e kc kq m cx cy].
  unfold handleKeyPresses, IsKeyPressed. game_fields.
  destruct e, (keyGet ks KeyEscape) eqn:Ee, p, kc, kq, t; game_fields;
    key_lookups; try (split; reflexivity);
    destruct (keyGet ks KeyC); game_fields; split; reflexivity.
Qed.
(** ** The session *)

Lemma session_Running (g : Game) :
  session g = Running <-> paused g = false /\ terminated g = false.
Proof.
  unfold session. destruct (terminated g), (paused g); split;
    intros H; try discriminate; try (destruct H; discriminate); auto.
Qed.

Lemma session_Paused (g : Game) :
  session g = Paused <-> paused g = true /\ terminated g = false.
Proof.
  unfold session. destruct (terminated g), (paused g); split;
    intros H; try discriminate; try (destruct H; discriminate); auto.
Qed.









(** ** Holding and releasing Escape *)




(** ** Paused ticks *)

Lemma staysPaused_frozen (inputs : list Input) (g : Game) :
  staysPaused inputs g ->
  let g' := ticks inputs g in
  logoX g' = logoX g /\ logoY g' = logoY g /\
  velocityX g' = velocityX g /\ velocityY g' = velocityY g /\
  cornerHits g' = cornerHits g /\ hitCorner g' = hitCorner g.
Proof.
  revert g. induction inputs as [|i rest IH]; intros g Hs; cbv zeta in *.
  - cbn. repeat split; reflexivity.
  - destruct Hs as [Hp Hrest]. rewrite ticks_cons.
    destruct (IH _ Hrest) as (-> & -> & -> & -> & -> & ->).
    destruct (Update_flags i g) as (Hp' & _). rewrite Hp' in Hp.
    rewrite (Update_paused_state i g Hp).
    destruct (handleKeyPresses_motion i g)
      as (-> & -> & -> & -> & -> & _ & ->).
    repeat split; reflexivity.
Qed.

(** ** The corner check *)

Lemma checkCorner_hit (g : Game) :
  nearVerticalEdge g = true -> nearHorizontalEdge g = true ->
  hitCorner (checkCorner g) = true /\
  cornerHits (checkCorner g) = wrapInt (cornerHits g + 1).
Proof.
  intros Hv Hh. unfold checkCorner. rewrite Hv, Hh. game_fields.
  split; reflexivity.
Qed.

Lemma checkCorner_miss (g : Game) :
  nearVerticalEdge g && nearHorizontalEdge g = false -> checkCorner g = g.
Proof.
  unfold checkCorner.
  destruct (nearVerticalEdge g), (nearHorizontalEdge g);
    try discriminate; reflexivity.
Qed.

Lemma near_edges_at_origin (g : Game) :
  logoX g == 0 -> logoY g == 0 ->
  nearVerticalEdge g = true /\ nearHorizontalEdge g = true.
Proof.
  intros Hx Hy. unfold nearVerticalEdge, nearHorizontalEdge.
  assert (Ex : Qltb (logoX g) cornerTolerance = true)
    by (apply Qltb_lt; constants; lra).
  assert (Ey : Qltb (logoY g) cornerTolerance = true)
    by (apply Qltb_lt; constants; lra).
  rewrite Ex, Ey. split; reflexivity.
Qed.

Lemma near_edges_at_centre (g : Game) :
  logoX g == 400 -> nearVerticalEdge g = false.
Proof.
  intros Hx. unfold nearVerticalEdge.
  assert (E1 : Qltb (logoX g) cornerTolerance = false)
    by (apply Qltb_ge; constants; lra).
  assert (E2 : Qltb (screenWidth - logoWidth - cornerTolerance) (logoX g)
               = false)
    by (apply Qltb_ge; constants; lra).
  rewrite E1, E2. reflexivity.
Qed.

(** The counter and the flash flag after a tick on which the game is not
    paused, from the place the collision block left the logo at. *)
Lemma Update_running_corner (i : Input) (g : Game) :
  paused (handleKeyPresses i g) = false ->
  let c := collideBorders (moveLogo (handleKeyPresses i g)) in
  let g' := fst (Update i g) in
  (nearVerticalEdge c && nearHorizontalEdge c = true ->
   hitCorner g' = true /\ cornerHits g' = wrapInt (cornerHits g + 1)) /\
  (nearVerticalEdge c && nearHorizontalEdge c = false ->
   hitCorner g' = false /\ cornerHits g' = cornerHits g).
Proof.
  intros Hp c g'. subst g'. rewrite (Update_when_running i g Hp). cbn [fst].
  fold c.
  destruct (adjustVelocity_frame i (checkCorner c))
    as (_ & _ & -> & _ & -> & _).
  assert (Hc : cornerHits c = cornerHits g).
  { subst c.
    destruct (collideBorders_frame (moveLogo (handleKeyPresses i g)))
      as (-> & _).
    destruct (moveLogo_frame (handleKeyPresses i g)) as (_ & _ & -> & _).
    destruct (handleKeyPresses_motion i g) as (_ & _ & _ & _ & -> & _).
    reflexivity. }
  assert (Hf : hitCorner c = false).
  { subst c.
    destruct (collideBorders_frame (moveLogo (handleKeyPresses i g)))
      as (_ & _ & -> & _).
    reflexivity. }
  split; intros Hn.
  - apply andb_true_iff in Hn as [Hv Hh].
    destruct (checkCorner_hit c Hv Hh) as [-> ->]. rewrite Hc.
    split; reflexivity.
  - rewrite (checkCorner_miss c Hn). split; assumption.
Qed.

Lemma Update_paused_corner (i : Input) (g : Game) :
  paused (handleKeyPresses i g) = true ->
  hitCorner (fst (Update i g)) = hitCorner g /\
  cornerHits (fst (Update i g)) = cornerHits g.
Proof.
  intros Hp. rewrite (Update_paused_state i g Hp).
  destruct (handleKeyPresses_motion i g) as (_ & _ & _ & _ & -> & _ & ->).
  split; reflexivity.
Qed.

(** In one tick the counter keeps its value or takes Go's [++]. *)
Lemma Update_cornerHits (i : Input) (g : Game) :
  cornerHits (fst (Update i g)) = cornerHits g \/
  cornerHits (fst (Update i g)) = wrapInt (cornerHits g + 1).
Proof.
  destruct (paused (handleKeyPresses i g)) eqn:Hp.
  - left. apply Update_paused_corner, Hp.
  - destruct (Update_running_corner i g Hp) as [Hhit Hmiss].
    destruct (nearVerticalEdge _ && nearHorizontalEdge _).
    + right. apply Hhit. reflexivity.
    + left. apply Hmiss. reflexivity.
Qed.

Lemma wrapInt_isInt (z : Z) : isInt (wrapInt z).
Proof.
  unfold isInt, wrapInt, minInt, maxInt.
  pose proof (Z.mod_pos_bound (z + 2 ^ 63) (2 ^ 64)). lia.
Qed.

Lemma reachable_isInt (g : Game) : reachable g -> isInt (cornerHits g).
Proof.
  induction 1 as [g Hi | g i g' _ IH Hu].
  - destruct Hi. cbn. unfold isInt, minInt, maxInt. lia.
  - replace g' with (fst (Update i g)) by (rewrite Hu; reflexivity).
    destruct (Update_cornerHits i g) as [-> | ->];
      [exact IH | apply wrapInt_isInt].
Qed.

(** ** The left wall, and a logo at rest *)

Lemma bounce_off_left_wall (g : Game) :
  logoX g == 0 -> velocityX g == - (2) ->
  logoX (collideBorders (moveLogo g)) == 0 /\
  velocityX (collideBorders (moveLogo g)) == 2.
Proof.
  destruct g as [x y vx vy c h hc p t ks].
  unfold collideBorders, moveLogo. constants. game_fields. intros Hx Hv.
  repeat (split_Qltb; game_fields; try (exfalso; lra)); split; lra.
Qed.

Lemma at_rest_in_window (g : Game) :
  inBounds g -> velocityX g == 0 -> velocityY g == 0 ->
  sameMotion g (collideBorders (moveLogo g)).
Proof.
  destruct g as [x y vx vy c h hc p t ks].
  unfold inBounds, sameMotion, collideBorders, moveLogo. constants.
  game_fields. intros [[Hx0 Hx1] [Hy0 Hy1]] Hvx Hvy.
  repeat (split_Qltb; game_fields; try (exfalso; lra)); repeat split; lra.
Qed.

(** ** Ticks on which nothing is pressed *)

Lemma handleKeyPresses_idle (g : Game) :
  paused g = false -> handleKeyPresses idle g = set_key KeyEscape false g.
Proof.
  intros Hp. unfold handleKeyPresses, idle, IsKeyPressed. game_fields.
  rewrite Hp. reflexivity.
Qed.

Lemma Update_idle_running (g : Game) :
  paused g = false ->
  snd (Update idle g) = None /\ paused (fst (Update idle g)) = false /\
  terminated (fst (Update idle g)) = terminated g.
Proof.
  intros Hp.
  assert (Hp' : paused (handleKeyPresses idle g) = false)
    by (rewrite (handleKeyPresses_idle g Hp); exact Hp).
  destruct (Update_flags idle g) as (-> & -> & _).
  rewrite (Update_when_running idle g Hp'), (handleKeyPresses_idle g Hp).
  repeat split; assumption.
Qed.

(** A game that is not paused never stops by itself, whatever its
    [terminated] flag says. *)
Lemma RunGame_idle_running (n : nat) (g : Game) :
  paused g = false -> snd (RunGame (repeat idle n) g) = false.
Proof.
  revert g. induction n as [|n IH]; intros g Hp.
  - reflexivity.
  - destruct (Update_idle_running g Hp) as (Hn & Hp' & _).
    cbn [repeat RunGame].
    destruct (Update idle g) as [g' [[]|]] eqn:Hu; cbn [snd fst] in *.
    + discriminate.
    + apply IH, Hp'.
Qed.

(** ** A logo at rest in the top left corner *)

Lemma near_edges_top_left (g : Game) :
  logoX g < cornerTolerance -> logoY g < cornerTolerance ->
  nearVerticalEdge g && nearHorizontalEdge g = true.
Proof.
  intros Hx Hy. unfold nearVerticalEdge, nearHorizontalEdge.
  apply Qltb_lt in Hx, Hy. rewrite Hx, Hy. reflexivity.
Qed.

Lemma restingInCorner_idle (c : Z) (g : Game) :
  restingInCorner c g ->
  snd (Update idle g) = None /\
  restingInCorner (wrapInt (c + 1)) (fst (Update idle g)).
Proof.
  intros (Hx & Hy & Hvx & Hvy & Hh & Hp & Hc).
  destruct (Update_idle_running g Hp) as (Hn & Hp' & _).
  split; [exact Hn|].
  assert (Hrun : paused (handleKeyPresses idle g) = false)
    by (rewrite (handleKeyPresses_idle g Hp); exact Hp).
  destruct (Update_running_position idle g Hrun) as (Ex & Ey & Eh).
  destruct (Update_running_velocity idle g Hrun eq_refl) as (Evx & Evy).
  destruct (Update_running_corner idle g Hrun) as [Hhit _].
  destruct (handleKeyPresses_motion idle g)
    as (Kx & Ky & Kvx & Kvy & _ & Kh & _).
  assert (Hin : inBounds (handleKeyPresses idle g)).
  { unfold inBounds. rewrite Kx, Ky, Kh. constants. repeat split; lra. }
  destruct (at_rest_in_window (handleKeyPresses idle g) Hin)
    as (Sx & Sy & Svx & Svy).
  { rewrite Kvx. exact Hvx. }
  { rewrite Kvy. exact Hvy. }
  rewrite Kx in Sx. rewrite Ky in Sy. rewrite Kvx in Svx. rewrite Kvy in Svy.
  unfold restingInCorner. rewrite Ex, Ey, Evx, Evy, Eh, Hp', Sx, Sy, Svx, Svy.
  repeat split; try assumption.
  rewrite <- Hc. apply Hhit.
  apply near_edges_top_left; rewrite ?Sx, ?Sy, ?Hx, ?Hy; constants; lra.
Qed.

(** ** Reaching the largest counter value *)

Lemma initial_cornerStart : initial cornerStart.
Proof.
  assert (Hh : int_of_float64 (scaledHeight 240 112) = 56%Z)
    by (vm_compute; reflexivity).
  apply (initial_main 240 112 0 0); unfold IntnReturns; rewrite ?Hh;
    unfold screenWidthInt, screenHeightInt, logoWidthInt; lia.
Qed.

Lemma initial_startGame : initial startGame.
Proof.
  assert (Hh : int_of_float64 (scaledHeight 240 112) = 56%Z)
    by (vm_compute; reflexivity).
  apply (initial_main 240 112 100 100); unfold IntnReturns; rewrite ?Hh;
    unfold screenWidthInt, screenHeightInt, logoWidthInt; lia.
Qed.

Lemma drag_stops_logo :
  snd (Update dragFarAway cornerStart) = None /\
  restingInCorner 1 (fst (Update dragFarAway cornerStart)).
Proof.
  split; [vm_compute; reflexivity|].
  unfold restingInCorner. repeat split; vm_compute; reflexivity.
Qed.

Lemma reachable_step (i : Input) (g : Game) :
  reachable g -> snd (Update i g) = None -> reachable (fst (Update i g)).
Proof.
  intros Hr Hn. apply (reach_tick g i _ Hr).
  destruct (Update i g) as [g' e]. cbn in *. subst e. reflexivity.
Qed.

Lemma resting_idle_ticks (n : nat) (c : Z) (g : Game) :
  restingInCorner c g -> (minInt <= c)%Z -> (c + Z.of_nat n <= maxInt)%Z ->
  restingInCorner (c + Z.of_nat n) (ticks (repeat idle n) g) /\
  (reachable g -> reachable (ticks (repeat idle n) g)).
Proof.
  revert c g. induction n as [|n IH]; intros c g Hrest Hlo Hhi.
  - cbn [repeat ticks fold_left Z.of_nat]. rewrite Z.add_0_r. auto.
  - destruct (restingInCorner_idle c g Hrest) as [Hn Hrest'].
    rewrite wrapInt_small in Hrest' by lia.
    cbn [repeat]. rewrite ticks_cons.
    destruct (IH (c + 1)%Z _ Hrest') as [IHr IHreach]; [lia | lia |].
    replace (c + Z.of_nat (S n))%Z with (c + 1 + Z.of_nat n)%Z by lia.
    split; [exact IHr|].
    intros Hr. apply IHreach, reachable_step; assumption.
Qed.

Lemma maxInt_pred_nonneg : (0 <= maxInt - 1)%Z.
Proof. unfold maxInt. lia. Qed.

Lemma counterFull_resting :
  restingInCorner maxInt counterFull /\ reachable counterFull.
Proof.
  destruct drag_stops_logo as [Hn H1].
  pose proof maxInt_pred_nonneg as Hm.
  destruct (resting_idle_ticks (Z.to_nat (maxInt - 1)) 1 _ H1) as [Hr Hreach].
  { unfold minInt. lia. }
  { rewrite Z2Nat.id by exact Hm. lia. }
  rewrite Z2Nat.id in Hr by exact Hm.
  replace (1 + (maxInt - 1))%Z with maxInt in Hr by lia.
  unfold counterFull, lingering. rewrite ticks_cons.
  split; [exact Hr|].
  apply Hreach, reachable_step; [|exact Hn].
  apply reach_initial, initial_cornerStart.
Qed.
(** ** More on runs of idle ticks and on the collision block *)

Lemma idle_ticks_flags (n : nat) (g : Game) :
  paused g = false ->
  paused (ticks (repeat idle n) g) = false /\
  terminated (ticks (repeat idle n) g) = terminated g.
Proof.
  revert g. induction n as [|n IH]; intros g Hp.
  - split; [exact Hp | reflexivity].
  - destruct (Update_idle_running g Hp) as (_ & Hp' & Ht).
    cbn [repeat]. rewrite ticks_cons.
    destruct (IH _ Hp') as [-> ->]. split; [reflexivity | exact Ht].
Qed.

Lemma collideBorders_negates (g : Game) :
  (velocityX (collideBorders g) == velocityX g \/
   velocityX (collideBorders g) == - velocityX g) /\
  (velocityY (collideBorders g) == velocityY g \/
   velocityY (collideBorders g) == - velocityY g).
Proof.
  destruct g as [x y vx vy c h hc p t ks]. unfold collideBorders.
  game_fields.
  repeat (split_Qltb; game_fields); rewrite ?Qopp_involutive;
    split; (left; reflexivity) || (right; reflexivity).
Qed.

(** When the game is paused and terminated once the keys are handled,
    [Update] returns [ebiten.Termination] on that very tick. *)
Lemma Update_returns_Termination (i : Input) (g : Game) :
  paused (handleKeyPresses i g) = true ->
  terminated (handleKeyPresses i g) = true ->
  snd (Update i g) = Some Termination.
Proof.
  intros Hp Ht. rewrite (Update_when_paused i g Hp), Ht. reflexivity.
Qed.

(** * The claims *)

(** C1.  The claim says that once the terminated flag is set the loop ends
    the program by the next tick, and that no tick moves the logo while the
    session is paused or terminated.  The code does not do this when C and Q
    are pressed on the same tick of a pause: from the start state
    [startGame], a tick with Escape down pauses the game ([afterPause]); the
    next tick, with C and Q down, sets [terminated], clears [paused], returns
    [nil] and moves the logo ([afterCandQ]); after that the loop runs on for
    any number of idle ticks, the flag staying set and the logo moving by its
    velocity on each of them.  The program then ends on the next press of
    Escape, with Q up. *)
Theorem terminated_without_pause_keeps_running :
  initial startGame /\
  snd (Update pressEscape startGame) = None /\
  session afterPause = Paused /\
  snd (Update pressCandQ afterPause) = None /\
  terminated afterCandQ = true /\
  session afterCandQ = Terminated /\
  logoX afterCandQ == logoX afterPause + 2 /\
  (forall n : nat,
     snd (RunGame (repeat idle n) afterCandQ) = false /\
     terminated (ticks (repeat idle n) afterCandQ) = true) /\
  logoX (fst (Update idle afterCandQ)) == logoX afterCandQ + 2 /\
  snd (Update pressEscape afterCandQ) = Some Termination.
Proof.
  assert (Hp : paused afterCandQ = false) by (vm_compute; reflexivity).
  assert (Ht : terminated afterCandQ = true) by (vm_compute; reflexivity).
  split; [apply initial_startGame|].
  split; [vm_compute; reflexivity|].
  split; [vm_compute; reflexivity|].
  split; [vm_compute; reflexivity|].
  split; [exact Ht|].
  split; [vm_compute; reflexivity|].
  split; [vm_compute; reflexivity|].
  split; [|split; vm_compute; reflexivity].
  intros n. split.
  - apply RunGame_idle_running, Hp.
  - destruct (idle_ticks_flags n afterCandQ Hp) as [_ ->]. exact Ht.
Qed.



(** C3.  After a tick both velocity components are at most
    [logoMaxVelocity] in absolute value: a tick keeps the bound for every
    input, a running tick with the mouse button down establishes it whatever
    the velocity was, and so the bound holds before and after every call of
    [Update] from a state built by [main], whose velocity is
    [logoStartVelocity] on both axes. *)
Theorem velocity_stays_bounded :
  (forall (i : Input) (g : Game),
     velocityBounded g -> velocityBounded (fst (Update i g))) /\
  (forall (i : Input) (g : Game),
     runningTick i g -> mouseLeft i = true ->
     velocityBounded (fst (Update i g))) /\
  (forall (i : Input) (g : Game),
     reachable g -> velocityBounded g /\ velocityBounded (fst (Update i g))).
Proof.
  split; [exact Update_velocityBounded|].
  split; [exact Update_running_pressed_bounded|].
  intros i g Hr.
  assert (Hv : velocityBounded g).
  { induction Hr as [g Hi | g j g' _ IH Hu].
    - apply initial_velocityBounded, Hi.
    - replace g' with (fst (Update j g)) by (rewrite Hu; reflexivity).
      apply Update_velocityBounded, IH. }
  split; [exact Hv | apply Update_velocityBounded, Hv].
Qed.

Lemma velocity_stays_bounded_witness :
  velocityBounded (fst (Update dragFarAway startGame)).
Proof.
  apply (proj1 velocity_stays_bounded dragFarAway startGame).
  unfold velocityBounded. split; apply Qle_bool_iff; vm_compute; reflexivity.
Defined.
(** C4, as the code has it.  From a state the loop can reach in which the
    counter is below the largest [int], one tick leaves [cornerHits] as it is
    or adds exactly 1 to it, for every input; in particular it does not
    decrease. *)
Theorem cornerHits_steps_by_zero_or_one (i : Input) (g : Game) :
  reachable g -> (cornerHits g < maxInt)%Z ->
  (cornerHits g <= cornerHits (fst (Update i g)))%Z /\
  (cornerHits (fst (Update i g)) = cornerHits g \/
   cornerHits (fst (Update i g)) = (cornerHits g + 1)%Z).
Proof.
  intros Hr Hlt. pose proof (reachable_isInt g Hr) as [Hlo _].
  destruct (Update_cornerHits i g) as [E | E].
  - rewrite E. split; [lia | left; reflexivity].
  - rewrite wrapInt_small in E by (unfold isInt, minInt, maxInt in *; lia).
    rewrite E. split; [lia | right; reflexivity].
Qed.

Lemma cornerHits_steps_by_zero_or_one_witness :
  (cornerHits cornerStart <= cornerHits (fst (Update idle cornerStart)))%Z /\
  (cornerHits (fst (Update idle cornerStart)) = cornerHits cornerStart \/
   cornerHits (fst (Update idle cornerStart))
   = (cornerHits cornerStart + 1)%Z).
Proof.
  apply (cornerHits_steps_by_zero_or_one idle cornerStart).
  - apply reach_initial. apply (initial_main 240 112 0 0).
    + lia.
    + lia.
    + unfold IntnReturns, screenWidthInt, logoWidthInt. lia.
    + unfold IntnReturns. vm_compute. repeat split; discriminate.
  - vm_compute. reflexivity.
Defined.

(** C4, the claim as stated fails.  [counterFull] is reached from the start
    state [cornerStart] by one tick with the mouse button held, which brings
    the logo to rest at (2,2), and idle ticks after it, each of which counts
    a corner hit.  Its counter is the largest [int]; the next idle tick wraps
    it around to the smallest one, so the counter decreases. *)
Lemma cornerHits_wraps_at_maxInt :
  reachable counterFull /\
  cornerHits counterFull = maxInt /\
  snd (Update idle counterFull) = None /\
  cornerHits (fst (Update idle counterFull)) = minInt /\
  (cornerHits (fst (Update idle counterFull)) < cornerHits counterFull)%Z.
Proof.
  destruct counterFull_resting as [Hrest Hreach].
  destruct (restingInCorner_idle maxInt counterFull Hrest) as [Hn Hnext].
  rewrite wrapInt_succ_maxInt in Hnext.
  destruct Hrest as (_ & _ & _ & _ & _ & _ & Hc).
  destruct Hnext as (_ & _ & _ & _ & _ & _ & Hc').
  rewrite Hc, Hc'.
  split; [exact Hreach|]. split; [reflexivity|]. split; [exact Hn|].
  split; [reflexivity|]. unfold minInt, maxInt. lia.
Qed.


(** C6.  Ticks that all end with the game paused change neither the position
    nor the velocity (nor the corner counter and the flash flag), however
    many they are; [Update] reads no clock. *)
Theorem paused_ticks_freeze_motion (inputs : list Input) (g : Game) :
  staysPaused inputs g ->
  logoX (ticks inputs g) = logoX g /\ logoY (ticks inputs g) = logoY g /\
  velocityX (ticks inputs g) = velocityX g /\
  velocityY (ticks inputs g) = velocityY g /\
  cornerHits (ticks inputs g) = cornerHits g /\
  hitCorner (ticks inputs g) = hitCorner g.
Proof. intros Hs. apply (staysPaused_frozen inputs g Hs). Qed.

Lemma paused_ticks_freeze_motion_witness :
  logoX (ticks (idle :: dragFarAway :: idle :: nil) afterPause)
  = logoX afterPause.
Proof.
  apply (paused_ticks_freeze_motion (idle :: dragFarAway :: idle :: nil)
           afterPause).
  cbn [staysPaused]. repeat split; vm_compute; reflexivity.
Defined.

(** C7.  With the constants of the program (window 800 by 600, logo width
    120, tolerance 5) the corner check run on a logo at (0,0) sets
    [hitCorner] and increments [cornerHits], whatever the logo height is, and
    run on a logo at (400,300) changes nothing.  On every running tick the
    check is applied to the position left by the collision block: at (0,0)
    the tick ends with [hitCorner] true and the counter incremented, at
    (400,300) with [hitCorner] false and the counter unchanged, and whenever
    that position is inside the tolerance band of a vertical and of a
    horizontal edge the counter is incremented, so that a logo resting in the
    corner is counted on each tick. *)
Theorem corner_check_every_running_tick :
  (screenWidth == 800 /\ screenHeight == 600 /\ logoWidth == 120 /\
   cornerTolerance == 5) /\
  (forall g : Game,
     logoX g == 0 -> logoY g == 0 ->
     hitCorner (checkCorner g) = true /\
     cornerHits (checkCorner g) = wrapInt (cornerHits g + 1)) /\
  (forall g : Game,
     logoX g == 400 -> logoY g == 300 -> checkCorner g = g) /\
  (forall (i : Input) (g : Game),
     runningTick i g ->
     let c := collideBorders (moveLogo (handleKeyPresses i g)) in
     let g' := fst (Update i g) in
     (logoX c == 0 -> logoY c == 0 ->
      hitCorner g' = true /\ cornerHits g' = wrapInt (cornerHits g + 1)) /\
     (logoX c == 400 -> logoY c == 300 ->
      hitCorner g' = false /\ cornerHits g' = cornerHits g) /\
     (nearVerticalEdge c = true -> nearHorizontalEdge c = true ->
      hitCorner g' = true /\ cornerHits g' = wrapInt (cornerHits g + 1))) /\
  (forall n : nat,
     (1 + Z.of_nat n <= maxInt)%Z ->
     cornerHits (lingering n) = (1 + Z.of_nat n)%Z).
Proof.
  split; [repeat split; reflexivity|].
  split.
  { intros g Hx Hy. destruct (near_edges_at_origin g Hx Hy) as [Hv Hh].
    apply checkCorner_hit; assumption. }
  split.
  { intros g Hx _. apply checkCorner_miss.
    rewrite (near_edges_at_centre g Hx). reflexivity. }
  split.
  { intros i g Hrun c g'.
    destruct (Update_running_corner i g Hrun) as [Hhit Hmiss].
    fold c in Hhit, Hmiss. fold g' in Hhit, Hmiss.
    split; [|split].
    - intros Hx Hy. destruct (near_edges_at_origin c Hx Hy) as [Hv Hh].
      apply Hhit. rewrite Hv, Hh. reflexivity.
    - intros Hx _. apply Hmiss.
      rewrite (near_edges_at_centre c Hx). reflexivity.
    - intros Hv Hh. apply Hhit. rewrite Hv, Hh. reflexivity. }
  intros n Hn. destruct drag_stops_logo as [_ H1].
  destruct (resting_idle_ticks n 1 _ H1) as [Hr _];
    [unfold minInt; lia | exact Hn |].
  unfold lingering. rewrite ticks_cons.
  destruct Hr as (_ & _ & _ & _ & _ & _ & Hc). exact Hc.
Qed.

Lemma corner_check_every_running_tick_witness :
  (hitCorner (checkCorner atOrigin) = true /\
   cornerHits (checkCorner atOrigin) = wrapInt (cornerHits atOrigin + 1)) /\
  checkCorner atCentre = atCentre.
Proof.
  destruct corner_check_every_running_tick as (_ & H0 & H1 & _).
  split.
  - apply (H0 atOrigin); reflexivity.
  - apply (H1 atCentre); reflexivity.
Defined.
(** C8.  A logo at x = 0 that moves left with velocity -2, on a running tick
    with the mouse button up: after the tick x is 0 again and the horizontal
    velocity is +2. *)
Theorem left_wall_bounce (i : Input) (g : Game) :
  runningTick i g -> mouseLeft i = false ->
  logoX g == 0 -> velocityX g == - (2) ->
  logoX (fst (Update i g)) == 0 /\ velocityX (fst (Update i g)) == 2.
Proof.
  intros Hrun Hm Hx Hv.
  destruct (Update_running_position i g Hrun) as (-> & _ & _).
  destruct (Update_running_velocity i g Hrun Hm) as (-> & _).
  destruct (handleKeyPresses_motion i g) as (Kx & _ & Kvx & _).
  apply bounce_off_left_wall.
  - rewrite Kx. exact Hx.
  - rewrite Kvx. exact Hv.
Qed.

Lemma left_wall_bounce_witness :
  logoX (fst (Update idle atLeftWall)) == 0 /\
  velocityX (fst (Update idle atLeftWall)) == 2.
Proof.
  apply (left_wall_bounce idle atLeftWall).
  - vm_compute. reflexivity.
  - reflexivity.
  - reflexivity.
  - reflexivity.
Defined.




(** C10.  On a running tick with the mouse button up each velocity component
    keeps its absolute value: the tick leaves it as it is or negates it. *)
Theorem speed_kept_without_nudge (i : Input) (g : Game) :
  runningTick i g -> mouseLeft i = false ->
  (Qabs (velocityX (fst (Update i g))) == Qabs (velocityX g) /\
   Qabs (velocityY (fst (Update i g))) == Qabs (velocityY g)) /\
  (velocityX (fst (Update i g)) == velocityX g \/
   velocityX (fst (Update i g)) == - velocityX g) /\
  (velocityY (fst (Update i g)) == velocityY g \/
   velocityY (fst (Update i g)) == - velocityY g).
Proof.
  intros Hrun Hm. split; [apply Update_running_speed; assumption|].
  destruct (Update_running_velocity i g Hrun Hm) as (-> & ->).
  destruct (collideBorders_negates (moveLogo (handleKeyPresses i g)))
    as [Hx Hy].
  destruct (moveLogo_frame (handleKeyPresses i g)) as (Mx & My & _).
  destruct (handleKeyPresses_motion i g) as (_ & _ & Kvx & Kvy & _).
  rewrite Mx, Kvx in Hx. rewrite My, Kvy in Hy. split; assumption.
Qed.

Lemma speed_kept_without_nudge_witness :
  Qabs (velocityX (fst (Update idle atLeftWall)))
  == Qabs (velocityX atLeftWall).
Proof.
  apply (speed_kept_without_nudge idle atLeftWall).
  - vm_compute. reflexivity.
  - reflexivity.
Defined.

(** * Further properties of the code *)

(** ** The velocity clamp and the nudge *)

Lemma clampVelocity_cases (v : Q) :
  (Qabs v <= logoMaxVelocity /\ clampVelocity v = v) \/
  (logoMaxVelocity < v /\ clampVelocity v == logoMaxVelocity) \/
  (v < - logoMaxVelocity /\ clampVelocity v == - logoMaxVelocity).
Proof.
  unfold clampVelocity, Abs, Copysign. constants.
  split_Qltb.
  - right. split_Qltb.
    + right. split; [|apply Qeq_bool_iff; reflexivity].
      rewrite Qabs_neg in E by lra. lra.
    + left. split; [|apply Qeq_bool_iff; reflexivity].
      rewrite Qabs_pos in E by lra. lra.
  - left. split; [exact E | reflexivity].
Qed.

(** X1.  The clamp of lines 97-102 saturates one velocity component at
    [logoMaxVelocity]: a value of magnitude at most 3 is returned as it is, a
    value above 3 becomes 3, a value below -3 becomes -3; so the result keeps
    the sign, and clamping twice is clamping once. *)
Theorem clampVelocity_saturates (v : Q) :
  (Qabs v <= logoMaxVelocity -> clampVelocity v = v) /\
  (logoMaxVelocity < v -> clampVelocity v == logoMaxVelocity) /\
  (v < - logoMaxVelocity -> clampVelocity v == - logoMaxVelocity) /\
  (0 <= v -> 0 <= clampVelocity v) /\ (v <= 0 -> clampVelocity v <= 0) /\
  clampVelocity (clampVelocity v) = clampVelocity v.
Proof.
  assert (Hidem : clampVelocity (clampVelocity v) = clampVelocity v).
  { pose proof (clampVelocity_bounded v) as Hb. apply Qltb_ge in Hb.
    unfold clampVelocity at 1. unfold Abs. rewrite Hb. reflexivity. }
  destruct (clampVelocity_cases v) as [[Ha E] | [[Ha E] | [Ha E]]];
    constants.
  - rewrite !E. repeat split; auto; intros H; exfalso;
      apply Qabs_Qle_condition in Ha; lra.
  - repeat split; try exact Hidem; try (intros; lra).
    intros H. apply Qabs_Qle_condition in H. lra.
  - repeat split; try exact Hidem; try (intros; lra).
    intros H. apply Qabs_Qle_condition in H. lra.
Qed.

Lemma clampVelocity_saturates_witness :
  clampVelocity 7 == logoMaxVelocity.
Proof.
  apply (proj1 (proj2 (clampVelocity_saturates 7))).
  apply Qltb_lt. vm_compute. reflexivity.
Defined.

Lemma adjustVelocity_pressed (i : Input) (g : Game) :
  mouseLeft i = true ->
  velocityX (adjustVelocity i g)
  = clampVelocity
      (velocityX g
       + (inject_Z (cursorX i) - (logoX g + logoWidth / 2))
         * nudgeAmount / 1000) /\
  velocityY (adjustVelocity i g)
  = clampVelocity
      (velocityY g
       + (inject_Z (cursorY i) - (logoY g + logoHeight g / 2))
         * nudgeAmount / 1000).
Proof.
  intros Hm. unfold adjustVelocity. rewrite Hm. game_fields.
  split; reflexivity.
Qed.

Lemma clampVelocity_pulled_up (v d : Q) :
  Qabs v <= logoMaxVelocity -> 0 <= d -> v <= clampVelocity (v + d).
Proof.
  intros Hv Hd. apply Qabs_Qle_condition in Hv. constants.
  destruct (clampVelocity_cases (v + d)) as [[Ha E] | [[Ha E] | [Ha E]]];
    constants.
  - rewrite E. lra.
  - rewrite E. lra.
  - exfalso. lra.
Qed.

Lemma clampVelocity_pulled_down (v d : Q) :
  Qabs v <= logoMaxVelocity -> d <= 0 -> clampVelocity (v + d) <= v.
Proof.
  intros Hv Hd. apply Qabs_Qle_condition in Hv. constants.
  destruct (clampVelocity_cases (v + d)) as [[Ha E] | [[Ha E] | [Ha E]]];
    constants.
  - rewrite E. lra.
  - exfalso. lra.
  - rewrite E. lra.
Qed.

Lemma nudge_term_sign (centre cursor : Q) :
  (centre <= cursor -> 0 <= (cursor - centre) * nudgeAmount / 1000) /\
  (cursor <= centre -> (cursor - centre) * nudgeAmount / 1000 <= 0).
Proof.
  unfold nudgeAmount, Qdiv. change (/ 1000) with (1 # 1000).
  split; intros H; lra.
Qed.

(** X2.  The nudge pulls the logo towards the pointer.  On a running tick
    with the left button down, let [c] be the state the collision block
    leaves, with velocity within the bound.  If the cursor is at or to the
    right of the logo centre ([logoX c + logoWidth/2]) the horizontal
    velocity after the tick is at least that of [c]; if it is at or to the
    left, at most; in the same way for the vertical axis and the centre
    [logoY c + logoHeight/2]. *)
Theorem nudge_pulls_towards_pointer (i : Input) (g : Game) :
  runningTick i g -> mouseLeft i = true ->
  let c := collideBorders (moveLogo (handleKeyPresses i g)) in
  let g' := fst (Update i g) in
  velocityBounded c ->
  (logoX c + logoWidth / 2 <= inject_Z (cursorX i) ->
   velocityX c <= velocityX g') /\
  (inject_Z (cursorX i) <= logoX c + logoWidth / 2 ->
   velocityX g' <= velocityX c) /\
  (logoY c + logoHeight c / 2 <= inject_Z (cursorY i) ->
   velocityY c <= velocityY g') /\
  (inject_Z (cursorY i) <= logoY c + logoHeight c / 2 ->
   velocityY g' <= velocityY c).
Proof.
  intros Hrun Hm c g' [Hbx Hby]. subst g'.
  rewrite (Update_when_running i g Hrun). cbn [fst]. fold c.
  destruct (adjustVelocity_pressed i (checkCorner c) Hm) as [-> ->].
  destruct (checkCorner_frame c) as (-> & -> & -> & -> & -> & _).
  repeat split; intros H.
  - apply clampVelocity_pulled_up; [exact Hbx | apply nudge_term_sign, H].
  - apply clampVelocity_pulled_down; [exact Hbx | apply nudge_term_sign, H].
  - apply clampVelocity_pulled_up; [exact Hby | apply nudge_term_sign, H].
  - apply clampVelocity_pulled_down; [exact Hby | apply nudge_term_sign, H].
Qed.

Lemma nudge_pulls_towards_pointer_witness :
  velocityX (collideBorders (moveLogo (handleKeyPresses dragFarAway startGame)))
  >= velocityX (fst (Update dragFarAway startGame)).
Proof.
  apply (nudge_pulls_towards_pointer dragFarAway startGame).
  - vm_compute. reflexivity.
  - reflexivity.
  - unfold velocityBounded.
    split; apply Qle_bool_iff; vm_compute; reflexivity.
  - apply Qle_bool_iff. vm_compute. reflexivity.
Defined.

(** ** Flight, bounces and the counter *)





(** Case analysis on a comparison whose operands hold no other comparison. *)
Ltac split_inner_Qltb :=
  match goal with
  | |- context [Qltb ?a ?b] =>
      lazymatch a with
      | context [Qltb _ _] => fail
      | _ =>
          lazymatch b with
          | context [Qltb _ _] => fail
          | _ =>
              let E := fresh "E" in
              destruct (Qltb a b) eqn:E;
              [apply Qltb_lt in E | apply Qltb_ge in E]
          end
      end
  end.

Lemma double_bounce_near_edges (g : Game) :
  let x1 := logoX g + velocityX g in
  let y1 := logoY g + velocityY g in
  x1 < 0 \/ screenWidth - logoWidth < x1 ->
  y1 < 0 \/ screenHeight - logoHeight g < y1 ->
  nearVerticalEdge (collideBorders (moveLogo g))
  && nearHorizontalEdge (collideBorders (moveLogo g)) = true.
Proof.
  destruct g as [x y vx vy k h hc p t ks].
  unfold collideBorders, moveLogo, nearVerticalEdge, nearHorizontalEdge.
  constants. game_fields. intros Hx Hy.
  repeat (split_inner_Qltb; game_fields;
          try (exfalso; destruct Hx, Hy; lra)); reflexivity.
Qed.

(** X4.  A bounce off two walls on one tick is always counted.  On a running
    tick, if position plus velocity leaves the bounds on the horizontal axis
    and on the vertical axis, the tick ends with [hitCorner] set and
    [cornerHits] incremented, whatever the logo height. *)
Theorem double_bounce_is_corner_hit (i : Input) (g : Game) :
  runningTick i g ->
  logoX g + velocityX g < 0 \/
  screenWidth - logoWidth < logoX g + velocityX g ->
  logoY g + velocityY g < 0 \/
  screenHeight - logoHeight g < logoY g + velocityY g ->
  hitCorner (fst (Update i g)) = true /\
  cornerHits (fst (Update i g)) = wrapInt (cornerHits g + 1).
Proof.
  intros Hrun Hx Hy.
  destruct (Update_running_corner i g Hrun) as [Hhit _]. apply Hhit.
  destruct (handleKeyPresses_motion i g) as (Kx & Ky & Kvx & Kvy & _ & Kh & _).
  apply double_bounce_near_edges; cbv zeta; rewrite ?Kx, ?Ky, ?Kvx, ?Kvy, ?Kh;
    assumption.
Qed.

Lemma double_bounce_is_corner_hit_witness :
  hitCorner (fst (Update idle (mkGame 1 1 (-2) (-2) 0 56 false false false ∅)))
  = true.
Proof.
  apply (double_bounce_is_corner_hit idle
           (mkGame 1 1 (-2) (-2) 0 56 false false false ∅)).
  - vm_compute. reflexivity.
  - left. apply Qltb_lt. vm_compute. reflexivity.
  - left. apply Qltb_lt. vm_compute. reflexivity.
Defined.

Lemma wrapInt_succ_neq (c : Z) : wrapInt (c + 1) <> c.
Proof.
  unfold wrapInt. intros H.
  pose proof (Z.div_mod (c + 1 + 2 ^ 63) (2 ^ 64)) as Hd.
  assert (Hne : (2 ^ 64 <> 0)%Z) by lia. specialize (Hd Hne). lia.
Qed.

(** X5.  The counter and the flash flag go together: a tick changes
    [cornerHits] exactly when it is a running tick that ends with [hitCorner]
    set.  On any other tick the counter keeps its value. *)
Theorem counter_changes_iff_flash (i : Input) (g : Game) :
  cornerHits (fst (Update i g)) <> cornerHits g <->
  runningTick i g /\ hitCorner (fst (Update i g)) = true.
Proof.
  unfold runningTick. destruct (paused (handleKeyPresses i g)) eqn:Hp.
  - destruct (Update_paused_corner i g Hp) as [_ Hc]. split.
    + intros H. contradiction.
    + intros [H _]. discriminate H.
  - destruct (Update_running_corner i g Hp) as [Hhit Hmiss].
    destruct (nearVerticalEdge _ && nearHorizontalEdge _).
    + destruct (Hhit eq_refl) as [Hf Hc]. rewrite Hf, Hc. split.
      * intros _. split; reflexivity.
      * intros _. apply wrapInt_succ_neq.
    + destruct (Hmiss eq_refl) as [Hf Hc]. rewrite Hf, Hc. split.
      * intros H. contradiction.
      * intros [_ H]. discriminate H.
Qed.

Lemma ticks_cornerHits_bounds (inputs : list Input) (g : Game) :
  (0 <= cornerHits g)%Z ->
  (cornerHits g + Z.of_nat (length inputs) <= maxInt)%Z ->
  (cornerHits g <= cornerHits (ticks inputs g)
   <= cornerHits g + Z.of_nat (length inputs))%Z.
Proof.
  revert g. induction inputs as [|i rest IH]; intros g H0 Hmax.
  - cbn. lia.
  - rewrite ticks_cons. cbn [length] in *.
    assert (Hstep : (cornerHits g <= cornerHits (fst (Update i g))
                     <= cornerHits g + 1)%Z).
    { destruct (Update_cornerHits i g) as [-> | ->]; [lia|].
      rewrite wrapInt_small by (unfold minInt, maxInt in *; lia). lia. }
    specialize (IH (fst (Update i g))). lia.
Qed.

(** X6.  The counter never runs ahead of the clock: after any sequence of
    ticks from a state built by [main], [cornerHits] is between 0 and the
    number of ticks (as long as that number is an [int]). *)
Theorem cornerHits_at_most_ticks (inputs : list Input) (g : Game) :
  initial g -> (Z.of_nat (length inputs) <= maxInt)%Z ->
  (0 <= cornerHits (ticks inputs g) <= Z.of_nat (length inputs))%Z.
Proof.
  intros Hi Hlen.
  assert (H0 : cornerHits g = 0%Z) by (destruct Hi; reflexivity).
  pose proof (ticks_cornerHits_bounds inputs g) as H. rewrite H0 in H.
  apply H; lia.
Qed.

Lemma cornerHits_at_most_ticks_witness :
  (0 <= cornerHits (ticks (idle :: idle :: idle :: nil) cornerStart) <= 3)%Z.
Proof.
  apply (cornerHits_at_most_ticks (idle :: idle :: idle :: nil) cornerStart).
  - apply (initial_main 240 112 0 0).
    + lia.
    + lia.
    + unfold IntnReturns, screenWidthInt, logoWidthInt. lia.
    + unfold IntnReturns. vm_compute. repeat split; discriminate.
  - vm_compute. discriminate.
Defined.

(** ** Keys *)

(** X7.  While the game runs, C and Q do nothing.  If the game is not paused
    and Escape is not freshly pressed (it is up, or the map has it as down
    already), [handleKeyPresses] only records the state of Escape: the flags
    and every other field stay as they are and the map entries of C and Q
    are not written, whatever C and Q are. *)
Theorem keys_ignored_while_running (i : Input) (g : Game) :
  paused g = false ->
  escDown i = false \/ keyGet (keyState g) KeyEscape = true ->
  handleKeyPresses i g = set_key KeyEscape (escDown i) g.
Proof.
  intros Hp He. unfold handleKeyPresses, IsKeyPressed.
  destruct He as [He | He]; rewrite He; game_fields; rewrite ?Hp;
    [reflexivity|].
  destruct (escDown i); game_fields; rewrite Hp; reflexivity.
Qed.

Lemma keys_ignored_while_running_witness :
  handleKeyPresses pressCandQ startGame = set_key KeyEscape false startGame.
Proof.
  apply (keys_ignored_while_running pressCandQ startGame).
  - reflexivity.
  - left. reflexivity.
Defined.

(** X8.  The program never ends unless Q is pressed: from a state whose
    [terminated] flag is clear (every state built by [main] is one), a run
    of ticks on none of which Q is down does not stop the loop and leaves
    the flag clear. *)
Theorem never_ends_without_Q (inputs : list Input) (g : Game) :
  terminated g = false -> Forall (fun i => qDown i = false) inputs ->
  snd (RunGame inputs g) = false /\ terminated (fst (RunGame inputs g)) = false.
Proof.
  intros Ht Hall. revert g Ht.
  induction Hall as [|i rest Hq _ IH]; intros g Ht.
  - split; [reflexivity | exact Ht].
  - cbn [RunGame].
    destruct (Update_flags i g) as (_ & Ht' & _).
    destruct (handleKeyPresses_flags i g) as [_ Hk].
    rewrite Hq, Ht, andb_false_r in Hk. cbn in Hk. rewrite Hk in Ht'.
    unfold Update in *.
    destruct (paused (handleKeyPresses i g)) eqn:Hp.
    + rewrite Hk. apply IH. exact Hk.
    + apply IH. exact Ht'.
Qed.

Lemma never_ends_without_Q_witness :
  snd (RunGame (pressEscape :: pressC :: dragFarAway :: nil) startGame) = false.
Proof.
  apply (never_ends_without_Q (pressEscape :: pressC :: dragFarAway :: nil)
           startGame).
  - reflexivity.
  - repeat constructor.
Defined.

(** X9.  [Update] returns [ebiten.Termination] exactly on the ticks that end
    both paused and terminated, and [nil] on all others; hence no state from
    which the loop goes on is paused and terminated at once. *)
Theorem Termination_iff_paused_and_terminated :
  (forall (i : Input) (g : Game),
     snd (Update i g) = Some Termination <->
     paused (fst (Update i g)) = true /\ terminated (fst (Update i g)) = true) /\
  (forall g : Game, reachable g -> paused g && terminated g = false).
Proof.
  assert (H : forall i g,
     snd (Update i g) = Some Termination <->
     paused (fst (Update i g)) = true /\ terminated (fst (Update i g)) = true).
  { intros i g. destruct (Update_flags i g) as (-> & -> & _).
    unfold Update.
    destruct (paused (handleKeyPresses i g)),
      (terminated (handleKeyPresses i g)); cbn [snd];
      split; intros H; try discriminate; try (destruct H; discriminate);
      auto. }
  split; [exact H|].
  intros g Hr. destruct Hr as [g Hi | g i g' _ Hu].
  - destruct Hi. reflexivity.
  - assert (Hn : snd (Update i g) <> Some Termination)
      by (rewrite Hu; discriminate).
    rewrite H, Hu in Hn. cbn [fst] in Hn.
    destruct (paused g'), (terminated g'); try reflexivity.
    exfalso. apply Hn. split; reflexivity.
Qed.

Lemma Termination_iff_paused_and_terminated_witness :
  paused afterCandQ && terminated afterCandQ = false.
Proof.
  apply (proj2 Termination_iff_paused_and_terminated afterCandQ).
  apply (reach_tick afterPause pressCandQ afterCandQ).
  - apply (reach_tick startGame pressEscape afterPause).
    + apply reach_initial. apply (initial_main 240 112 100 100).
      * lia.
      * lia.
      * unfold IntnReturns, screenWidthInt, logoWidthInt. lia.
      * unfold IntnReturns. vm_compute. repeat split; discriminate.
    + vm_compute. reflexivity.
  - vm_compute. reflexivity.
Defined.

(** X10.  Escape pressed while C is down does not pause.  If the game runs,
    the map has neither Escape nor C as down, and Escape and C are both down
    on a tick, the Escape branch pauses and the C branch continues within the
    same call: the tick is a running one, [Update] returns [nil], and
    [terminated] is set exactly when Q is down as well. *)
Theorem Escape_with_C_down_does_not_pause (i : Input) (g : Game) :
  session g = Running ->
  keyGet (keyState g) KeyEscape = false -> keyGet (keyState g) KeyC = false ->
  escDown i = true -> cDown i = true ->
  runningTick i g /\ snd (Update i g) = None /\
  paused (fst (Update i g)) = false /\
  terminated (fst (Update i g)) = qDown i.
Proof.
  intros Hs Hke Hkc He Hc. apply session_Running in Hs as [Hp Ht].
  destruct (handleKeyPresses_flags i g) as [Hp' Ht'].
  rewrite He, Hc, Hke, Hkc, Hp in Hp'. rewrite He, Hke, Hp, Ht in Ht'.
  cbn in Hp', Ht'.
  destruct (Update_flags i g) as (-> & -> & _).
  unfold runningTick. rewrite (Update_when_running i g Hp'). cbn [snd].
  repeat split; assumption.
Qed.

Lemma Escape_with_C_down_does_not_pause_witness :
  paused (fst (Update (mkInput true true false false 0 0) startGame)) = false.
Proof.
  apply (Escape_with_C_down_does_not_pause
           (mkInput true true false false 0 0) startGame); reflexivity.
Defined.

(** X11.  Escape pressed while Q is down quits at once.  If the game runs,
    the map does not have Escape as down, Escape and Q are both down on a
    tick and C does not continue (it is up, or the map has it as down), then
    [Update] returns [ebiten.Termination] on that tick, and the logo has not
    moved. *)
Theorem Escape_with_Q_down_quits (i : Input) (g : Game) :
  session g = Running ->
  keyGet (keyState g) KeyEscape = false ->
  escDown i = true -> qDown i = true ->
  cDown i = false \/ keyGet (keyState g) KeyC = true ->
  snd (Update i g) = Some Termination /\
  logoX (fst (Update i g)) = logoX g /\ logoY (fst (Update i g)) = logoY g.
Proof.
  intros Hs Hke He Hq Hc. apply session_Running in Hs as [Hp Ht].
  destruct (handleKeyPresses_flags i g) as [Hp' Ht'].
  rewrite He, Hke, Hp in Hp'. rewrite He, Hq, Hke, Hp, Ht in Ht'.
  cbn in Hp', Ht'.
  assert (Hp'' : paused (handleKeyPresses i g) = true).
  { rewrite Hp'. destruct Hc as [-> | ->]; cbn; rewrite ?andb_false_r;
      reflexivity. }
  rewrite (Update_when_paused i g Hp''), Ht'. cbn [fst snd].
  destruct (handleKeyPresses_motion i g) as (-> & -> & _).
  repeat split; reflexivity.
Qed.

Lemma Escape_with_Q_down_quits_witness :
  snd (Update (mkInput true false true false 0 0) startGame)
  = Some Termination.
Proof.
  apply (Escape_with_Q_down_quits (mkInput true false true false 0 0)
           startGame); try reflexivity.
  left. reflexivity.
Defined.

(** X12.  The first press of Escape pauses a fresh game.  In a state built
    by [main] the key-state map is empty, and a missing key reads as not
    down: a tick with Escape as the only tracked key down makes the session
    Paused, returns [nil] and moves nothing. *)
Theorem first_Escape_pauses (i : Input) (g : Game) :
  initial g -> onlyEscapeDown i ->
  session (fst (Update i g)) = Paused /\ snd (Update i g) = None /\
  logoX (fst (Update i g)) = logoX g /\ logoY (fst (Update i g)) = logoY g.
Proof.
  intros Hi (He & Hc & Hq).
  assert (Hg : paused g = false /\ terminated g = false /\ keyState g = ∅)
    by (destruct Hi; repeat split; reflexivity).
  destruct Hg as (Hp & Ht & Hk).
  destruct (handleKeyPresses_flags i g) as [Hp' Ht'].
  rewrite Hk in Hp', Ht'. unfold keyGet in Hp', Ht'.
  rewrite lookup_empty in Hp', Ht'. cbn [default] in Hp', Ht'.
  rewrite He, Hc, Hp in Hp'. rewrite He, Hq, Hp, Ht in Ht'.
  cbn in Hp', Ht'.
  rewrite (Update_when_paused i g Hp'), Ht'. cbn [fst snd].
  destruct (handleKeyPresses_motion i g) as (-> & -> & _).
  split; [|repeat split; reflexivity].
  apply session_Paused. split; assumption.
Qed.

Lemma first_Escape_pauses_witness :
  session (fst (Update pressEscape startGame)) = Paused.
Proof.
  apply (first_Escape_pauses pressEscape startGame).
  - apply (initial_main 240 112 100 100).
    + lia.
    + lia.
    + unfold IntnReturns, screenWidthInt, logoWidthInt. lia.
    + unfold IntnReturns. vm_compute. repeat split; discriminate.
  - unfold onlyEscapeDown. repeat split; reflexivity.
Defined.

(** ** main *)




(** ** The window title *)

Lemma Qfloor_between (x : Q) (q : Z) :
  inject_Z q <= x -> x < inject_Z (q + 1) -> Qfloor x = q.
Proof.
  intros Hlo Hhi.
  assert (H1 : (q <= Qfloor x)%Z).
  { rewrite <- (Qfloor_Z q). apply Qfloor_resp_le, Hlo. }
  assert (H2 : (Qfloor x < q + 1)%Z).
  { rewrite Zlt_Qlt. apply Qle_lt_trans with x; [apply Qfloor_le | exact Hhi]. }
  lia.
Qed.

(** The whole part of a duration, as the library computes it. *)
Lemma int_of_whole_and_fraction (q r k : Z) :
  (0 <= q)%Z -> (0 <= r < k)%Z ->
  int_of_float64 (inject_Z q + inject_Z r / inject_Z k) = q.
Proof.
  intros Hq [Hr0 Hrk].
  assert (Hk : 0 < inject_Z k) by (rewrite <- (Zlt_Qlt 0); lia).
  assert (Hf0 : 0 <= inject_Z r / inject_Z k).
  { apply Qle_shift_div_l; [exact Hk|]. rewrite Qmult_0_l.
    rewrite <- (Zle_Qle 0). exact Hr0. }
  assert (Hf1 : inject_Z r / inject_Z k < 1).
  { apply Qlt_shift_div_r; [exact Hk|]. rewrite Qmult_1_l.
    rewrite <- Zlt_Qlt. exact Hrk. }
  assert (Hq0 : 0 <= inject_Z q) by (rewrite <- (Zle_Qle 0); exact Hq).
  rewrite int_of_float64_floor by lra.
  apply Qfloor_between; [lra|]. rewrite inject_Z_plus.
  change (inject_Z 1) with 1. lra.
Qed.

Lemma title_numbers (elapsed : Z) :
  (0 <= elapsed)%Z ->
  titleHours elapsed = (elapsed / Hour)%Z /\
  titleMinutes elapsed = ((elapsed / Minute) mod 60)%Z /\
  titleSeconds elapsed = ((elapsed / Second) mod 60)%Z /\
  Z.quot (titleMilliseconds elapsed) 10 = ((elapsed / 10000000) mod 100)%Z.
Proof.
  intros H0.
  unfold titleHours, titleMinutes, titleSeconds, titleMilliseconds,
    Hours, Minutes, Seconds, Milliseconds.
  assert (HS : (0 < Second)%Z) by (unfold Second; lia).
  assert (HM : (0 < Minute)%Z) by (unfold Minute; lia).
  assert (HH : (0 < Hour)%Z) by (unfold Hour; lia).
  assert (Hwhole : forall k, (0 < k)%Z ->
            int_of_float64
              (inject_Z (Z.quot elapsed k) + inject_Z (Z.rem elapsed k) / inject_Z k)
            = (elapsed / k)%Z).
  { intros k Hk. rewrite Z.quot_div_nonneg, Z.rem_mod_nonneg by lia.
    apply int_of_whole_and_fraction.
    - apply Z.div_pos; lia.
    - apply Z.mod_pos_bound. lia. }
  rewrite !Hwhole by assumption.
  assert (Hdiv : forall k, (0 < k)%Z -> (0 <= elapsed / k)%Z)
    by (intros k Hk; apply Z.div_pos; lia).
  rewrite !Z.rem_mod_nonneg by (try apply Hdiv; lia).
  rewrite (Z.quot_div_nonneg elapsed 1000000) by lia.
  rewrite Z.rem_mod_nonneg by (try apply Hdiv; lia).
  rewrite Z.quot_div_nonneg
    by (try (apply Z.mod_pos_bound; lia); lia).
  repeat split; try reflexivity.
  unfold Second, Minute, Hour in *.
  Z.div_mod_to_equations. lia.
Qed.

(** X14.  The numbers in the window title take the elapsed time apart.  For
    an elapsed time from 0 up to 100 days, with [cs] the number printed after
    the dot ([milliseconds/10]): the hours are the whole hours elapsed,
    minutes and seconds lie in 0..59, [cs] in 0..99, and
    ((hours * 60 + minutes) * 60 + seconds) * 100 + cs is the elapsed time in
    hundredths of a second, rounded down. *)
Theorem title_takes_time_apart (elapsed : Z) :
  (0 <= elapsed < 100 * 24 * Hour)%Z ->
  let cs := Z.quot (titleMilliseconds elapsed) 10 in
  (titleHours elapsed = elapsed / Hour)%Z /\
  (0 <= titleMinutes elapsed < 60)%Z /\
  (0 <= titleSeconds elapsed < 60)%Z /\
  (0 <= cs < 100)%Z /\
  (((titleHours elapsed * 60 + titleMinutes elapsed) * 60
    + titleSeconds elapsed) * 100 + cs = elapsed / 10000000)%Z.
Proof.
  intros [H0 _] cs. subst cs.
  destruct (title_numbers elapsed H0) as (-> & -> & -> & ->).
  unfold Hour, Minute, Second.
  repeat split; try (apply Z.mod_pos_bound; lia).
  Z.div_mod_to_equations. lia.
Qed.

Lemma title_takes_time_apart_witness :
  (titleHours 3723450000000 = 3723450000000 / Hour)%Z.
Proof.
  apply (title_takes_time_apart 3723450000000).
  unfold Hour, Minute, Second. lia.
Defined.

Lemma append_adds_lengths (front back : string) :
  String.length (String.append front back)
  = Nat.add (String.length front) (String.length back).
Proof.
  induction front as [|a front IH]; simpl; [reflexivity | f_equal; exact IH].
Qed.

Lemma fmt_02d_length (n : Z) :
  (0 <= n < 100)%Z -> String.length (fmt_02d n) = 2%nat.
Proof.
  intros Hn.
  assert (Hall : forallb
            (fun k => Nat.eqb (String.length (fmt_02d (Z.of_nat k))) 2)
            (seq 0 100) = true) by (vm_compute; reflexivity).
  rewrite forallb_forall in Hall.
  specialize (Hall (Z.to_nat n)).
  rewrite Z2Nat.id in Hall by lia.
  apply Nat.eqb_eq, Hall, in_seq. lia.
Qed.

(** X15.  While less than 100 hours have elapsed the time shown in the title
    has a fixed width: the text after ["Time: "] is two digits for each of
    hours, minutes, seconds and hundredths, 11 characters in all. *)
Theorem title_time_has_fixed_width (elapsed : Z) :
  (0 <= elapsed < 100 * Hour)%Z ->
  String.length (titleTime elapsed) = 11%nat.
Proof.
  intros [H0 H1].
  destruct (title_numbers elapsed H0) as (Eh & Em & Es & Ec).
  assert (Lh : String.length (fmt_02d (titleHours elapsed)) = 2%nat).
  { apply fmt_02d_length. rewrite Eh. unfold Hour, Minute, Second in *.
    split; [apply Z.div_pos; lia | apply Z.div_lt_upper_bound; lia]. }
  assert (Lm : String.length (fmt_02d (titleMinutes elapsed)) = 2%nat).
  { apply fmt_02d_length. rewrite Em.
    pose proof (Z.mod_pos_bound (elapsed / Minute) 60). lia. }
  assert (Ls : String.length (fmt_02d (titleSeconds elapsed)) = 2%nat).
  { apply fmt_02d_length. rewrite Es.
    pose proof (Z.mod_pos_bound (elapsed / Second) 60). lia. }
  assert (Lc : String.length
                 (fmt_02d (Z.quot (titleMilliseconds elapsed) 10)) = 2%nat).
  { apply fmt_02d_length. rewrite Ec. apply Z.mod_pos_bound. lia. }
  unfold titleTime. rewrite !append_adds_lengths, Lh, Lm, Ls, Lc. reflexivity.
Qed.

Lemma title_time_has_fixed_width_witness :
  String.length (titleTime 3723450000000) = 11%nat.
Proof.
  apply (title_time_has_fixed_width 3723450000000).
  unfold Hour, Minute, Second. lia.
Defined.

(** The title after 1 h 2 min 3.45 s with 7 corner hits. *)
Example updateWindowTitle_sample :
  updateWindowTitle 3723450000000
    (mkGame 0 0 2 2 7 56 false false false ∅)
  = "Hits: 7 | Time: 01:02:03.45"%string.
Proof. vm_compute. reflexivity. Qed.

(** ** Drawing *)




Lemma staysPaused_paused (inputs : list Input) (g : Game) :
  paused g = true -> staysPaused inputs g -> paused (ticks inputs g) = true.
Proof.
  revert g. induction inputs as [|i rest IH]; intros g Hp Hs.
  - exact Hp.
  - destruct Hs as [Hp' Hrest]. rewrite ticks_cons. apply IH; assumption.
Qed.

(** X17.  The picture is frozen during a pause.  From a paused game, after
    any run of ticks that all end paused, [Draw] makes exactly the calls it
    made before for the same clock reading: same background (a corner flash
    stays on), same place of the logo, same title, same pause menu. *)
Theorem paused_frames_are_equal
    (imgDx elapsed : Z) (inputs : list Input) (g : Game) :
  paused g = true -> staysPaused inputs g ->
  Draw imgDx elapsed (ticks inputs g) = Draw imgDx elapsed g.
Proof.
  intros Hp Hs.
  pose proof (staysPaused_paused inputs g Hp Hs) as Hp'.
  destruct (staysPaused_frozen inputs g Hs) as (Ex & Ey & _ & _ & Ec & Ef).
  unfold Draw, updateWindowTitle. rewrite Ex, Ey, Ec, Ef, Hp', Hp.
  reflexivity.
Qed.

Lemma paused_frames_are_equal_witness :
  Draw 240 5000000000 (ticks (idle :: dragFarAway :: nil) afterPause)
  = Draw 240 5000000000 afterPause.
Proof.
  apply (paused_frames_are_equal 240 5000000000 (idle :: dragFarAway :: nil)
           afterPause).
  - vm_compute. reflexivity.
  - cbn [staysPaused]. repeat split; vm_compute; reflexivity.
Defined.

(** X18.  The green flash marks a counted hit.  On the frame drawn after a
    running tick the background is green (0,255,0) exactly when that tick
    changed [cornerHits], and blue (0,0,255) otherwise. *)
Theorem flash_marks_counted_hit (imgDx elapsed : Z) (i : Input) (g : Game) :
  runningTick i g ->
  let g' := fst (Update i g) in
  (backgroundOf (Draw imgDx elapsed g') = Some (RGBA 0 255 0 255) <->
   cornerHits g' <> cornerHits g) /\
  (backgroundOf (Draw imgDx elapsed g') = Some (RGBA 0 0 255 255) <->
   cornerHits g' = cornerHits g).
Proof.
  intros Hrun g'. subst g'.
  destruct (Update_running_corner i g Hrun) as [Hhit Hmiss].
  unfold Draw, backgroundOf.
  destruct (nearVerticalEdge _ && nearHorizontalEdge _).
  - destruct (Hhit eq_refl) as [-> ->].
    pose proof (wrapInt_succ_neq (cornerHits g)) as Hne.
    repeat split; intros H; try discriminate; try assumption; try reflexivity.
    contradiction.
  - destruct (Hmiss eq_refl) as [-> ->].
    repeat split; intros H; try discriminate; try reflexivity.
    contradiction.
Qed.

Lemma flash_marks_counted_hit_witness :
  backgroundOf (Draw 240 0 (fst (Update idle cornerStart)))
  = Some (RGBA 0 255 0 255) <->
  cornerHits (fst (Update idle cornerStart)) <> cornerHits cornerStart.
Proof.
  apply (flash_marks_counted_hit 240 0 idle cornerStart).
  vm_compute. reflexivity.
Defined.

(** ** Speed without the mouse *)

(** X19.  Without the mouse the speed never changes: after any run of ticks
    on none of which the left button is down, from a state built by [main],
    both velocity components still have the magnitude
    [logoStartVelocity]. *)
Theorem speed_constant_without_mouse (inputs : list Input) (g : Game) :
  initial g -> Forall (fun i => mouseLeft i = false) inputs ->
  Qabs (velocityX (ticks inputs g)) == logoStartVelocity /\
  Qabs (velocityY (ticks inputs g)) == logoStartVelocity.
Proof.
  intros Hi Hall.
  assert (H0 : Qabs (velocityX g) == logoStartVelocity /\
               Qabs (velocityY g) == logoStartVelocity).
  { destruct Hi. cbn [newGame velocityX velocityY]. split; reflexivity. }
  clear Hi. revert g H0.
  induction Hall as [|i rest Hm _ IH]; intros g [Hx Hy].
  - split; assumption.
  - rewrite ticks_cons. apply IH.
    destruct (paused (handleKeyPresses i g)) eqn:Hp.
    + rewrite (Update_paused_state i g Hp).
      destruct (handleKeyPresses_motion i g) as (_ & _ & -> & -> & _).
      split; assumption.
    + destruct (Update_running_speed i g Hp Hm) as [-> ->].
      split; assumption.
Qed.

Lemma speed_constant_without_mouse_witness :
  Qabs (velocityX (ticks (idle :: pressEscape :: pressC :: nil) startGame))
  == logoStartVelocity.
Proof.
  apply (speed_constant_without_mouse (idle :: pressEscape :: pressC :: nil)
           startGame).
  - apply (initial_main 240 112 100 100).
    + lia.
    + lia.
    + unfold IntnReturns, screenWidthInt, logoWidthInt. lia.
    + unfold IntnReturns. vm_compute. repeat split; discriminate.
  - repeat constructor.
Defined.
